(** * HubProjectAuraSync/script.py: the file bundler

    A shallow embedding of [bundle_files] and of the [__main__] entry point,
    together with the parts of the Python library they call
    ([posixpath.join], [posixpath.normpath], [posixpath.abspath],
    [posixpath.relpath], [os.walk], text-mode [open]/[read]/[write] and
    [print]).  Python [str] values are [string]s, the traversal is a
    function of a directory tree, and the body of the loop lives in a small
    state-and-exception monad: the state is the text written so far to the
    open output file and the lines printed so far.

    A [string] holds the bytes of a Python [str] as the file system
    encoding gives them (UTF-8, with a byte that [os.fsdecode] could not
    decode standing for the lone surrogate it became).  A [str] can be
    encoded, by [outfile.write] or by [print], exactly when these bytes are
    valid UTF-8; the texts the program encodes are joined at ASCII
    characters, where this agrees with Python character by character.

    What the model takes from the platform:
    - paths are POSIX paths, and text written to the output file is not
      translated (a newline is written as a newline);
    - the standard output encodes to UTF-8 with Python's default error
      handler for it ([strict]), as the output file does;
    - the content of a file is what [infile.read()] returns for it (with
      [\r\n] and [\r] already read as a newline, see
      [universal_newlines]), or the exception that [open] or [read]
      raises;
    - a directory listing is a list of entries in the order [scandir] gives
      them; a symbolic link to a directory, which [os.walk] lists but does
      not enter, behaves as a directory that cannot be listed;
    - opening the output file for writing succeeds, and the output file is
      not itself below the source directory. *)

From Stdlib Require Import String Ascii List Bool Arith NArith Lia Permutation.
Import ListNotations.

Local Open Scope list_scope.
Local Open Scope string_scope.

(** ** Python string primitives *)

Module pystr.

(** The line feed and the path separator. *)
Definition LF : ascii := "010"%char.
Definition CR : ascii := "013"%char.
Definition SLASH : ascii := "/"%char.
Definition nl : string := String LF "".

(** [s.startswith(p)] *)
Definition startswith (p s : string) : bool := String.prefix p s.

(** [s.endswith(p)]: [p] is [s] or a suffix of the tail of [s]. *)
Fixpoint endswith (p s : string) : bool :=
  (s =? p) ||
  match s with
  | "" => false
  | String _ s' => endswith p s'
  end.

(** [s.split(sep)] for a one-character separator: never the empty list. *)
Fixpoint split (sep : ascii) (s : string) : list string :=
  match s with
  | "" => [""]
  | String c s' =>
      if Ascii.eqb c sep then "" :: split sep s'
      else match split sep s' with
           | [] => [String c ""]
           | w :: ws => String c w :: ws
           end
  end.

(** [sep.join(ws)] *)
Definition join (sep : string) (ws : list string) : string :=
  String.concat sep ws.

(** [c in s] for a character. *)
Fixpoint contains (c : ascii) (s : string) : bool :=
  match s with
  | "" => false
  | String a s' => Ascii.eqb a c || contains c s'
  end.

(** [s.count(c)] for a character. *)
Fixpoint count (c : ascii) (s : string) : nat :=
  match s with
  | "" => 0
  | String a s' => (if Ascii.eqb a c then 1 else 0) + count c s'
  end.

(** The truth value of a string: non-empty. *)
Definition truthy (s : string) : bool := negb (s =? "").

End pystr.

(** ** UTF-8

    The strict UTF-8 codec as an automaton over the bytes: after a lead
    byte, the number of continuation bytes still due and the range the next
    one must lie in (no overlong forms, no surrogates, nothing above
    U+10FFFF). *)

Module utf8.

Definition byte (c : ascii) : N := N_of_ascii c.

Definition in_range (lo hi : N) (c : ascii) : bool :=
  (lo <=? byte c)%N && (byte c <=? hi)%N.

Inductive state : Type :=
| Start | Tail1 | Tail2 | Tail2_E0 | Tail2_ED
| Tail3 | Tail3_F0 | Tail3_F4 | Invalid.

Definition step (st : state) (c : ascii) : state :=
  match st with
  | Start =>
      if in_range 0x00 0x7F c then Start
      else if in_range 0xC2 0xDF c then Tail1
      else if in_range 0xE0 0xE0 c then Tail2_E0
      else if in_range 0xED 0xED c then Tail2_ED
      else if in_range 0xE1 0xEF c then Tail2
      else if in_range 0xF0 0xF0 c then Tail3_F0
      else if in_range 0xF1 0xF3 c then Tail3
      else if in_range 0xF4 0xF4 c then Tail3_F4
      else Invalid
  | Tail1 => if in_range 0x80 0xBF c then Start else Invalid
  | Tail2 => if in_range 0x80 0xBF c then Tail1 else Invalid
  | Tail2_E0 => if in_range 0xA0 0xBF c then Tail1 else Invalid
  | Tail2_ED => if in_range 0x80 0x9F c then Tail1 else Invalid
  | Tail3 => if in_range 0x80 0xBF c then Tail2 else Invalid
  | Tail3_F0 => if in_range 0x90 0xBF c then Tail2 else Invalid
  | Tail3_F4 => if in_range 0x80 0x8F c then Tail2 else Invalid
  | Invalid => Invalid
  end.

Fixpoint run (st : state) (s : string) : state :=
  match s with
  | "" => st
  | String c s' => run (step st c) s'
  end.

(** The bytes are valid UTF-8: the text can be encoded. *)
Definition valid (s : string) : bool :=
  match run Start s with Start => true | _ => false end.

(** The text of the [UnicodeEncodeError] of the codec, without the
    character and the position it names. *)
Definition encode_error : string :=
  "'utf-8' codec can't encode character: surrogates not allowed".

End utf8.

(** ** Results of Python computations: a value or a raised exception.
    An exception is represented by the text [str(e)] it prints as. *)

Inductive outcome (A : Type) : Type :=
| Ok (a : A)
| Raised (msg : string).
Arguments Ok {A} a.
Arguments Raised {A} msg.

(** ** posixpath *)

Module posixpath.
Import pystr.

(** [posixpath.join(a, b)]: one step of the loop over the later
    components. *)
Definition join (a b : string) : string :=
  if startswith "/" b then b
  else if (a =? "") || endswith "/" a then a ++ b
  else a ++ "/" ++ b.

(** [posixpath.join(a, *p)] *)
Definition join_all (a : string) (p : list string) : string :=
  fold_left join p a.

(** The loop of [normpath] over the components, [new_comps] kept in
    source order. *)
Definition norm_step (initial_slashes : nat) (new_comps : list string)
    (comp : string) : list string :=
  if (comp =? "") || (comp =? ".") then new_comps
  else if negb (comp =? "..")
          || (Nat.eqb initial_slashes 0 && Nat.eqb (List.length new_comps) 0)
          || (negb (Nat.eqb (List.length new_comps) 0)
              && (last new_comps "" =? ".."))
       then (new_comps ++ [comp])%list
       else removelast new_comps.

Definition initial_slashes_of (path : string) : nat :=
  if startswith "/" path then
    if startswith "//" path && negb (startswith "///" path) then 2 else 1
  else 0.

Definition normpath (path : string) : string :=
  if path =? "" then "."
  else
    let initial_slashes := initial_slashes_of path in
    let comps := fold_left (norm_step initial_slashes) (split SLASH path) [] in
    let path' := pystr.join "/" comps in
    let path' :=
      match initial_slashes with
      | 0 => path'
      | 1 => "/" ++ path'
      | _ => "//" ++ path'
      end in
    if path' =? "" then "." else path'.

(** [abspath], with the process's current directory as a parameter. *)
Definition abspath (cwd path : string) : string :=
  if startswith "/" path then normpath path
  else normpath (join cwd path).

(** [commonprefix] of two component lists: the longest common prefix. *)
Fixpoint commonprefix (s1 s2 : list string) : list string :=
  match s1, s2 with
  | x :: s1', y :: s2' => if x =? y then x :: commonprefix s1' s2' else []
  | _, _ => []
  end.

Definition components (path : string) : list string :=
  filter truthy (split SLASH path).

(** [posixpath.relpath(path, start)], with the component lists built by
    filtering the split paths and the result by joining [rel_list] with
    [join]. *)
Definition relpath (cwd path start : string) : outcome string :=
  if path =? "" then Raised "no path specified"
  else
    let start_list := components (abspath cwd start) in
    let path_list := components (abspath cwd path) in
    let i := List.length (commonprefix start_list path_list) in
    let rel_list :=
      (repeat ".." (List.length start_list - i) ++ skipn i path_list)%list in
    match rel_list with
    | [] => Ok "."
    | a :: p => Ok (join_all a p)
    end.

End posixpath.

(** ** The file system seen by one run *)

(** What opening and reading a file as UTF-8 text does. *)
Inductive file_state : Type :=
| Unopenable (cause : string)   (* [open(filepath, 'r')] raises *)
| Undecodable (cause : string)  (* [open] succeeds, [infile.read()] raises *)
| Text (content : string).      (* [infile.read()] returns [content] *)

(** Reading in text mode with the default [newline=None]: every [\r\n]
    and every other [\r] of the decoded text is read as a newline. *)
Fixpoint universal_newlines (raw : string) : string :=
  match raw with
  | "" => ""
  | String c rest =>
      if Ascii.eqb c pystr.CR then
        match rest with
        | String c' rest' =>
            if Ascii.eqb c' pystr.LF
            then String pystr.LF (universal_newlines rest')
            else String pystr.LF (universal_newlines rest)
        | "" => String pystr.LF ""
        end
      else String c (universal_newlines rest)
  end.

(** A readable file whose decoded text is [raw]. *)
Definition stored (raw : string) : file_state :=
  Text (universal_newlines raw).

(** A directory entry is a file or a directory; [scandir] on a directory
    either lists its entries, in the order of the list, or raises
    [OSError] ([listable = false]). *)
#[warning="-register-all"]
Inductive node : Type :=
| File (st : file_state)
| Dir (listable : bool) (entries : list (string * node)).

Definition is_dir (n : node) : bool :=
  match n with Dir _ _ => true | File _ => false end.

Definition dirnames (entries : list (string * node)) : list string :=
  map fst (filter (fun e => is_dir (snd e)) entries).

Fixpoint filenames (entries : list (string * node))
  : list (string * file_state) :=
  match entries with
  | [] => []
  | (name, File st) :: es => (name, st) :: filenames es
  | (_, Dir _ _) :: es => filenames es
  end.

(** [os.walk(top)], top-down, [onerror=None]: a directory that cannot be
    listed (or a [top] that is not a directory) yields nothing and the error
    is dropped.  Each yielded triple is [(dirpath, dirnames, filenames)];
    a file name comes with what opening [join(dirpath, filename)] will
    find. *)
Fixpoint walk (top : string) (n : node) {struct n}
  : list (string * list string * list (string * file_state)) :=
  match n with
  | Dir true entries =>
      (top, dirnames entries, filenames entries) ::
      (fix descend (es : list (string * node)) :=
         match es with
         | [] => []
         | (name, File _) :: es' => descend es'
         | (name, (Dir _ _) as child) :: es' =>
             (walk (posixpath.join top name) child ++ descend es')%list
         end) entries
  | Dir false _ => []
  | File _ => []
  end.

(** ** The state-and-exception monad of the loop body *)

Record io : Type := mkIO {
  outfile : string;        (* text written to the open output file *)
  stdout : list string     (* lines printed, oldest first *)
}.

Definition M (A : Type) : Type := io -> outcome A * io.

Definition ret {A} (a : A) : M A := fun s => (Ok a, s).

Definition bind {A B} (m : M A) (k : A -> M B) : M B :=
  fun s =>
    match m s with
    | (Ok a, s') => k a s'
    | (Raised e, s') => (Raised e, s')
    end.

Definition raise {A} (msg : string) : M A := fun s => (Raised msg, s).

(** [try: body except Exception as e: handler(e)]: what [body] did to the
    state before raising stays done. *)
Definition try_except {A} (body : M A) (handler : string -> M A) : M A :=
  fun s =>
    match body s with
    | (Ok a, s') => (Ok a, s')
    | (Raised e, s') => handler e s'
    end.

Definition lift {A} (r : outcome A) : M A := fun s => (r, s).

Notation "x <- m ;; k" := (bind m (fun x => k))
  (at level 61, m at next level, right associativity).
Notation "m ;;; k" := (bind m (fun _ => k))
  (at level 61, right associativity).

(** [outfile.write(text)]: the text is encoded before any of it is
    buffered, so a text that cannot be encoded raises and writes
    nothing. *)
Definition write (text : string) : M unit :=
  fun s =>
    if utf8.valid text
    then (Ok tt, mkIO (outfile s ++ text) (stdout s))
    else (Raised utf8.encode_error, s).

(** [print(line)]: a line that cannot be encoded raises and prints
    nothing. *)
Definition print (line : string) : M unit :=
  fun s =>
    if utf8.valid line
    then (Ok tt, mkIO (outfile s) (stdout s ++ [line])%list)
    else (Raised utf8.encode_error, s).

(** [open(filepath, 'r', encoding='utf-8')] *)
Definition open_r (st : file_state) : M file_state :=
  match st with
  | Unopenable cause => raise cause
  | _ => ret st
  end.

(** [infile.read()] *)
Definition read (infile : file_state) : M string :=
  match infile with
  | Text content => ret content
  | Undecodable cause => raise cause
  | Unopenable cause => raise cause
  end.

Fixpoint for_each {A} (xs : list A) (body : A -> M unit) : M unit :=
  match xs with
  | [] => ret tt
  | x :: xs' => body x ;;; for_each xs' body
  end.

(** ** bundle_files *)

Section Bundler.

(** The current directory of the process, which [relpath] consults. *)
Variable cwd : string.

Definition header (relative_filepath : string) : string :=
  "--- " ++ relative_filepath ++ " ---" ++ pystr.nl.

Definition separator : string := pystr.nl ++ pystr.nl.

(** The body of the inner [for] loop, for one [filename] of [dirpath]. *)
Definition bundle_one (start_path dirpath : string)
    (file : string * file_state) : M unit :=
  let '(filename, st) := file in
  let filepath := posixpath.join dirpath filename in
  relative_filepath <- lift (posixpath.relpath cwd filepath start_path) ;;
  try_except
    (infile <- open_r st ;;
     write (header relative_filepath) ;;;
     content <- read infile ;;
     write content ;;;
     write separator)
    (fun e => print ("Could not read file " ++ filepath ++ ": " ++ e)).

(** The two nested loops over the traversal. *)
Definition bundle_loop (start_path : string)
    (triples : list (string * list string * list (string * file_state)))
  : M unit :=
  for_each triples (fun '(dirpath, _, files) =>
    for_each files (bundle_one start_path dirpath)).

(** The part of the world a run can see or change: what is found at the
    source path, the content of the file at the output path (if there is
    one) and the console. *)
Record world : Type := mkWorld {
  fs_source : option node;
  fs_output : option string;
  console : list string
}.

Definition os_walk (start_path : string) (w : world) :=
  match fs_source w with
  | Some n => walk start_path n
  | None => []
  end.

(** [bundle_files(start_path, output_file)]: the output file is opened
    with mode ['w'], so it starts empty, and it is closed, with
    everything written to it, also when the body raises. *)
Definition bundle_files (start_path output_file : string) (w : world)
  : outcome unit * world :=
  let '(r, s) :=
    bundle_loop start_path (os_walk start_path w) (mkIO "" (console w)) in
  (r, mkWorld (fs_source w) (Some (outfile s)) (stdout s)).

(** [os.path.isdir] *)
Definition isdir (w : world) : bool :=
  match fs_source w with
  | Some n => is_dir n
  | None => false
  end.

Definition source_directory : string := "src".
Definition output_filename : string := "Code_Bundle.txt".

(** [print] of one of the two lines of the entry point: both are ASCII,
    so encoding them cannot fail. *)
Definition print_line (line : string) (w : world) : world :=
  mkWorld (fs_source w) (fs_output w) (console w ++ [line])%list.

(** The [__main__] block. *)
Definition main (w : world) : outcome unit * world :=
  if isdir w then
    match bundle_files source_directory output_filename w with
    | (Ok _, w') =>
        (Ok tt,
         print_line ("All files from '" ++ source_directory
                     ++ "' have been bundled into '" ++ output_filename
                     ++ "'") w')
    | (Raised e, w') => (Raised e, w')
    end
  else
    (Ok tt,
     print_line ("Error: The directory '" ++ source_directory
                 ++ "' does not exist.") w).

End Bundler.

(** ** The bundle format, read back

    The source has no reader for the bundle.  The reader below follows the
    format the bundle is documented to have: the lines of the output that
    begin with [--- ] and end with [ ---] are the headers; a record is a
    header and the lines up to the next header; the last of those lines is
    the blank separator line and the ones before it, joined by newlines,
    are the content. *)

Module BundleFormat.
Import pystr.

Definition is_header (line : string) : bool :=
  startswith "--- " line && endswith " ---" line.

(** The header line of a path, without its newline. *)
Definition header_line (p : string) : string := "--- " ++ p ++ " ---".

(** The text between the two markers of a header line. *)
Definition header_path (line : string) : string :=
  substring 4 (String.length line - 8) line.

(** The lines before the next header. *)
Fixpoint take_body (lines : list string) : list string :=
  match lines with
  | [] => []
  | l :: ls => if is_header l then [] else l :: take_body ls
  end.

Fixpoint records_of (lines : list string) : list (string * list string) :=
  match lines with
  | [] => []
  | l :: ls =>
      if is_header l then (header_path l, take_body ls) :: records_of ls
      else records_of ls
  end.

(** The newline-terminated lines of a text. *)
Definition lines_of (text : string) : list string :=
  removelast (split LF text).

Definition body_text (body : list string) : string :=
  pystr.join nl (removelast body).

Definition parse_bundle (text : string) : list (string * string) :=
  map (fun r => (fst r, body_text (snd r))) (records_of (lines_of text)).

(** A text none of whose lines reads as a header. *)
Definition header_free (text : string) : bool :=
  forallb (fun l => negb (is_header l)) (split LF text).

End BundleFormat.

(** ** The tree, independently of the traversal *)

(** A name as [scandir] returns them: not empty, without a slash, and
    neither [.] nor [..]. *)
Definition plain_name (name : string) : bool :=
  negb (name =? "") && negb (pystr.contains pystr.SLASH name)
  && negb (name =? ".") && negb (name =? "..").

(** The files of a tree that lie below directories that can be listed
    only, each with the names leading to it from the root, in the order of
    the directory listings. *)
Fixpoint reachable_files (n : node) : list (list string * file_state) :=
  match n with
  | File _ => []
  | Dir false _ => []
  | Dir true entries =>
      (fix each (es : list (string * node)) :=
         match es with
         | [] => []
         | (name, File st) :: es' => ([name], st) :: each es'
         | (name, (Dir _ _) as child) :: es' =>
             (map (fun f => (name :: fst f, snd f)) (reachable_files child)
              ++ each es')%list
         end) entries
  end.

(** The same files in the order in which the traversal meets them: the
    files of a directory first, then its subdirectories. *)
Fixpoint visited_files (n : node) : list (list string * file_state) :=
  match n with
  | File _ => []
  | Dir false _ => []
  | Dir true entries =>
      (map (fun f => ([fst f], snd f)) (filenames entries) ++
       (fix each (es : list (string * node)) :=
          match es with
          | [] => []
          | (name, File _) :: es' => each es'
          | (name, (Dir _ _) as child) :: es' =>
              (map (fun f => (name :: fst f, snd f)) (visited_files child)
               ++ each es')%list
          end) entries)%list
  end.

(** Every name of the tree satisfies [ok]. *)
Fixpoint all_names (ok : string -> bool) (n : node) : bool :=
  match n with
  | File _ => true
  | Dir _ entries =>
      (fix each (es : list (string * node)) :=
         match es with
         | [] => true
         | (name, child) :: es' => ok name && all_names ok child && each es'
         end) entries
  end.

(** Every file of the tree satisfies [ok]. *)
Fixpoint all_files (ok : file_state -> bool) (n : node) : bool :=
  match n with
  | File st => ok st
  | Dir _ entries =>
      (fix each (es : list (string * node)) :=
         match es with
         | [] => true
         | (_, child) :: es' => all_files ok child && each es'
         end) entries
  end.

Definition is_text (st : file_state) : bool :=
  match st with Text _ => true | _ => false end.

Definition text_header_free (st : file_state) : bool :=
  match st with Text c => BundleFormat.header_free c | _ => true end.

(** The (relative path, content) pairs of the readable files of a list. *)
Definition text_pair_of (f : list string * file_state)
  : list (string * string) :=
  match snd f with
  | Text c => [(pystr.join "/" (fst f), c)]
  | _ => []
  end.

Definition text_pairs (files : list (list string * file_state))
  : list (string * string) :=
  flat_map text_pair_of files.

(** A file whose record can be read back: no newline in the names leading
    to it, and no line of its content that reads as a header. *)
Definition safe_path (names : list string) : bool :=
  forallb (fun x => negb (pystr.contains pystr.LF x)) names.

Definition safe_file (f : list string * file_state) : bool :=
  safe_path (fst f) && text_header_free (snd f).

(** A tree in which every directory that cannot be listed is replaced by an
    empty directory that can. *)
Fixpoint as_empty (n : node) : node :=
  match n with
  | File st => File st
  | Dir false _ => Dir true []
  | Dir true entries =>
      Dir true
        ((fix each (es : list (string * node)) :=
            match es with
            | [] => []
            | (name, child) :: es' => (name, as_empty child) :: each es'
            end) entries)
  end.

(** ** The traversal, directory by directory

    The functions below name the loops over the entries of one directory
    that the definitions above run inline. *)

Fixpoint walk_entries (top : string) (es : list (string * node))
  : list (string * list string * list (string * file_state)) :=
  match es with
  | [] => []
  | (name, File _) :: es' => walk_entries top es'
  | (name, (Dir _ _) as child) :: es' =>
      (walk (posixpath.join top name) child ++ walk_entries top es')%list
  end.

Fixpoint as_empty_entries (es : list (string * node))
  : list (string * node) :=
  match es with
  | [] => []
  | (name, child) :: es' => (name, as_empty child) :: as_empty_entries es'
  end.

Definition under (name : string) (f : list string * file_state)
  : list string * file_state := (name :: fst f, snd f).

Fixpoint visited_entries (es : list (string * node))
  : list (list string * file_state) :=
  match es with
  | [] => []
  | (name, File _) :: es' => visited_entries es'
  | (name, (Dir _ _) as child) :: es' =>
      (map (under name) (visited_files child) ++ visited_entries es')%list
  end.

Fixpoint reachable_entries (es : list (string * node))
  : list (list string * file_state) :=
  match es with
  | [] => []
  | (name, File st) :: es' => ([name], st) :: reachable_entries es'
  | (name, (Dir _ _) as child) :: es' =>
      (map (under name) (reachable_files child) ++ reachable_entries es')%list
  end.

Fixpoint all_names_entries (ok : string -> bool) (es : list (string * node))
  : bool :=
  match es with
  | [] => true
  | (name, child) :: es' =>
      ok name && all_names ok child && all_names_entries ok es'
  end.

Fixpoint all_files_entries (ok : file_state -> bool)
    (es : list (string * node)) : bool :=
  match es with
  | [] => true
  | (_, child) :: es' => all_files ok child && all_files_entries ok es'
  end.

(** The state before anything is written or printed. *)
Definition io0 : io := mkIO "" [].

(** [m] returns the same result from every state and appends the same
    text and the same lines to it. *)
Definition appends {A} (m : M A) : Prop :=
  forall s,
    m s = (fst (m io0),
           mkIO (outfile s ++ outfile (snd (m io0)))
                (stdout s ++ stdout (snd (m io0)))%list).

(** ** Names for the steps of [abspath] and [normpath] *)

(** [abspath] before normalisation. *)
Definition absolutize (cwd path : string) : string :=
  if pystr.startswith "/" path then path else posixpath.join cwd path.

(** The components [normpath] keeps. *)
Definition norm_comps (path : string) : list string :=
  fold_left (posixpath.norm_step (posixpath.initial_slashes_of path))
            (pystr.split pystr.SLASH path) [].

(** A component [normpath] can keep: not empty and without a slash. *)
Definition proper_comp (w : string) : Prop :=
  pystr.truthy w = true /\ pystr.contains pystr.SLASH w = false.

(** ** What a run leaves in the output

    For each file met, the output receives a whole record, a header alone
    (the file was opened but could not be read), or nothing (the file could
    not be opened). *)

Definition item : Type := (string * option string)%type.

Definition render_item (it : item) : string :=
  match snd it with
  | Some content => header (fst it) ++ content ++ separator
  | None => header (fst it)
  end.

Fixpoint render (items : list item) : string :=
  match items with
  | [] => ""
  | it :: rest => render_item it ++ render rest
  end.

Definition item_of (f : list string * file_state) : list item :=
  match snd f with
  | Text content => [(pystr.join "/" (fst f), Some content)]
  | Undecodable _ => [(pystr.join "/" (fst f), None)]
  | Unopenable _ => []
  end.

(** The item of a whole record. *)
Definition whole_record (r : string * string) : item :=
  (fst r, Some (snd r)).

(** What reading an item back gives. *)
Definition parsed_item (it : item) : string * string :=
  (fst it, match snd it with Some content => content | None => "" end).

Definition item_ok (it : item) : Prop :=
  pystr.contains pystr.LF (fst it) = false /\
  forall content, snd it = Some content ->
                  BundleFormat.header_free content = true.

(** ** The effect of the loop, file by file *)

Definition prepend (prefix : list string) (f : list string * file_state)
  : list string * file_state := ((prefix ++ fst f)%list, snd f).

(** What the loop body does to the state for a file reached from the start
    path through [fst f], when its relative path is those names joined by
    slashes. *)
Definition file_effect (start_path : string) (f : list string * file_state)
    (s : io) : io :=
  let relative_filepath := pystr.join "/" (fst f) in
  let filepath := posixpath.join_all start_path (fst f) in
  match snd f with
  | Text content =>
      mkIO (outfile s ++ header relative_filepath ++ content ++ separator)
           (stdout s)
  | Undecodable e =>
      mkIO (outfile s ++ header relative_filepath)
           (stdout s ++ [("Could not read file " ++ filepath ++ ": " ++ e)%string])%list
  | Unopenable e =>
      mkIO (outfile s)
           (stdout s ++ [("Could not read file " ++ filepath ++ ": " ++ e)%string])%list
  end.

(** The body of the loop for a file reached from the start path through
    [fst f], with the relative path and the file path it computes for
    it. *)
Definition handle_file (start_path : string)
    (f : list string * file_state) : M unit :=
  let relative_filepath := pystr.join "/" (fst f) in
  let filepath := posixpath.join_all start_path (fst f) in
  try_except
    (infile <- open_r (snd f) ;;
     write (header relative_filepath) ;;;
     content <- read infile ;;
     write content ;;;
     write separator)
    (fun e => print ("Could not read file " ++ filepath ++ ": " ++ e)).

(** What the loop body writes for a file, with the failures of [write]
    and [print] taken into account: the items it leaves in the output, and
    whether the loop goes on after it (it does not when the diagnostic
    cannot be printed). *)
Definition file_items (start_path : string)
    (f : list string * file_state) : list item * bool :=
  let relative_filepath := pystr.join "/" (fst f) in
  let filepath := posixpath.join_all start_path (fst f) in
  let printed e :=
    utf8.valid ("Could not read file " ++ filepath ++ ": " ++ e) in
  match snd f with
  | Unopenable cause => ([], printed cause)
  | Undecodable cause =>
      if utf8.valid (header relative_filepath)
      then ([(relative_filepath, None)], printed cause)
      else ([], printed utf8.encode_error)
  | Text content =>
      if utf8.valid (header relative_filepath) then
        if utf8.valid content
        then ([(relative_filepath, Some content)], true)
        else ([(relative_filepath, None)], printed utf8.encode_error)
      else ([], printed utf8.encode_error)
  end.

(** The items a run over the files [fs], in this order, leaves in the
    output: a file is successfully bundled when its whole record is among
    them. *)
Fixpoint written_items (start_path : string)
    (fs : list (list string * file_state)) : list item :=
  match fs with
  | [] => []
  | f :: rest =>
      (fst (file_items start_path f) ++
       (if snd (file_items start_path f)
        then written_items start_path rest else []))%list
  end.

(** What the loop body has to write or print for a file can be encoded:
    the names leading to it are valid UTF-8, and so is its content or, for
    a file that fails, the start path and the cause, which the diagnostic
    holds. *)
Definition entry_encodable (start_path : string)
    (f : list string * file_state) : bool :=
  forallb utf8.valid (fst f) &&
  match snd f with
  | Text content => utf8.valid content
  | Undecodable cause | Unopenable cause =>
      utf8.valid start_path && utf8.valid cause
  end.

Definition files_effect (start_path : string)
    (fs : list (list string * file_state)) (s : io) : io :=
  fold_left (fun s f => file_effect start_path f s) fs s.

(** The line printed for a file that could not be opened or read. *)
Definition diagnostic_of (start_path : string)
    (f : list string * file_state) : list string :=
  match snd f with
  | Text _ => []
  | Undecodable e | Unopenable e =>
      [("Could not read file "
        ++ posixpath.join_all start_path (fst f) ++ ": " ++ e)%string]
  end.

(** ** Trees without the files that cannot be opened *)

Definition openable (st : file_state) : bool :=
  match st with Unopenable _ => false | _ => true end.

(** The cause of a failing file can be encoded. *)
Definition cause_encodable (st : file_state) : bool :=
  match st with
  | Text _ => true
  | Undecodable cause | Unopenable cause => utf8.valid cause
  end.

Definition is_undecodable (st : file_state) : bool :=
  match st with Undecodable _ => true | _ => false end.

(** The tree with every file that cannot be opened taken out of the
    listings. *)
Fixpoint drop_unopenable (n : node) : node :=
  match n with
  | File st => File st
  | Dir b entries =>
      Dir b
        ((fix each (es : list (string * node)) :=
            match es with
            | [] => []
            | (name, File st) :: es' =>
                if openable st then (name, File st) :: each es' else each es'
            | (name, (Dir _ _) as child) :: es' =>
                (name, drop_unopenable child) :: each es'
            end) entries)
  end.

Fixpoint drop_unopenable_entries (es : list (string * node))
  : list (string * node) :=
  match es with
  | [] => []
  | (name, File st) :: es' =>
      if openable st then (name, File st) :: drop_unopenable_entries es'
      else drop_unopenable_entries es'
  | (name, (Dir _ _) as child) :: es' =>
      (name, drop_unopenable child) :: drop_unopenable_entries es'
  end.

(** ** Example trees *)

Module Examples.
Import pystr.

Definition hello_tree : node :=
  Dir true [ ("a.txt", File (Text "hello"));
             ("sub", Dir true [ ("b.txt", File (Text ("world" ++ nl))) ]) ].

Definition world_of (n : node) : world := mkWorld (Some n) None [].

Definition decode_error : string :=
  "'utf-8' codec can't decode byte 0xff in position 0: invalid start byte".

Definition bad_tree : node :=
  Dir true [ ("bad.bin", File (Undecodable decode_error));
             ("ok.txt", File (Text "hi")) ].

Definition garbage_tree : node :=
  Dir true [ ("bad.bin", File (Undecodable decode_error)) ].

Definition denied_tree : node :=
  Dir true [ ("secret.txt", File (Unopenable
               "[Errno 13] Permission denied: 'src/secret.txt'")) ].

(** One file whose content holds a line that reads as a header, and the
    two files it cannot be told from. *)
Definition tricky_content : string :=
  "x" ++ nl ++ nl ++ "--- b.txt ---" ++ nl ++ "y".

Definition tricky_tree : node :=
  Dir true [ ("a.txt", File (Text tricky_content)) ].

Definition split_tree : node :=
  Dir true [ ("a.txt", File (Text "x")); ("b.txt", File (Text "y")) ].

(** A file name with a newline in it. *)
Definition newline_tree : node :=
  Dir true [ ("a" ++ nl ++ "b", File (Text "x")) ].

(** A directory that cannot be listed, with a file in it. *)
Definition locked_tree : node :=
  Dir true [ ("a.txt", File (Text "hello"));
             ("private", Dir false [ ("b.txt", File (Text "world")) ]) ].

(** Readable files next to one that cannot be opened. *)
Definition mixed_tree : node :=
  Dir true [ ("a.txt", File (Text "hello"));
             ("secret.txt", File (Unopenable
                "[Errno 13] Permission denied: 'src/secret.txt'"));
             ("sub", Dir true [ ("b.txt", File (Text ("world" ++ nl))) ]) ].

(** Directories only. *)
Definition hollow_tree : node :=
  Dir true [ ("docs", Dir true []); ("private", Dir false []) ].

(** Names that [scandir] would not return, and files that fail. *)
Definition odd_tree : node :=
  Dir true [ ("..", File (Unopenable "[Errno 21] Is a directory: 'src/..'"));
             ("a/b", File (Undecodable decode_error));
             ("", Dir true [ ("c.txt", File (Text "x")) ]) ].

(** A readable file whose name is not valid UTF-8 (the byte 0xE9), listed
    before a readable file with a plain name. *)
Definition latin1_tree : node :=
  Dir true [ (String "c" (String "233" ""), File (Text "x"));
             ("ok.txt", File (Text "hi")) ].

(** A readable file stored with carriage returns. *)
Definition crlf_raw : string :=
  "a" ++ String CR (String LF "") ++ "b" ++ String CR "" ++ "c".

Definition crlf_tree : node := Dir true [ ("w.txt", File (stored crlf_raw)) ].

Definition home : string := "/home/u".

Definition run (n : node) : outcome unit * world :=
  bundle_files home "src" "Code_Bundle.txt" (world_of n).

End Examples.

(** * Facts *)

(** ** Strings *)

Module StrFacts.
Import pystr.

Lemma app_nil_r (s : string) : s ++ "" = s.
Proof. induction s as [|c s IH]; simpl; [reflexivity | now rewrite IH]. Qed.

Lemma app_assoc (a b c : string) : (a ++ b) ++ c = a ++ (b ++ c).
Proof. induction a as [|x a IH]; simpl; [reflexivity | now rewrite IH]. Qed.

Lemma app_eq_nil (a b : string) : a ++ b = "" -> a = "" /\ b = "".
Proof. destruct a; simpl; [auto | discriminate]. Qed.

Lemma length_app (a b : string) :
  String.length (a ++ b) = String.length a + String.length b.
Proof. induction a as [|x a IH]; simpl; [reflexivity | now rewrite IH]. Qed.

Lemma split_nonempty (c : ascii) (s : string) : split c s <> [].
Proof.
  destruct s as [|x s]; simpl; [discriminate|].
  destruct (Ascii.eqb x c); [discriminate|].
  destruct (split c s); discriminate.
Qed.

(** Splitting distributes over a separator. *)
Lemma split_app_sep (c : ascii) (a b : string) :
  split c (a ++ String c b) = (split c a ++ split c b)%list.
Proof.
  induction a as [|x a IH]; simpl.
  - now rewrite Ascii.eqb_refl.
  - rewrite IH. destruct (Ascii.eqb x c); [reflexivity|].
    destruct (split c a) as [|w ws] eqn:E; [|reflexivity].
    now apply split_nonempty in E.
Qed.

Lemma split_no_sep (c : ascii) (s : string) :
  contains c s = false -> split c s = [s].
Proof.
  induction s as [|x s IH]; simpl; [reflexivity|].
  intros H. apply orb_false_iff in H as [Hx Hs].
  rewrite Hx, (IH Hs). reflexivity.
Qed.

Lemma split_parts_no_sep (c : ascii) (s : string) :
  Forall (fun w => contains c w = false) (split c s).
Proof.
  induction s as [|x s IH]; simpl.
  - repeat constructor.
  - destruct (Ascii.eqb x c) eqn:E.
    + constructor; [reflexivity | exact IH].
    + destruct (split c s) as [|w ws]; [repeat constructor; simpl; now rewrite E|].
      inversion IH; subst. constructor; [simpl; now rewrite E | assumption].
Qed.

Lemma concat_cons (sep w : string) (ws : list string) :
  ws <> [] -> String.concat sep (w :: ws) = w ++ sep ++ String.concat sep ws.
Proof. destruct ws; [congruence | reflexivity]. Qed.

(** Joining what was split gives the text back. *)
Lemma join_split (c : ascii) (s : string) :
  pystr.join (String c "") (split c s) = s.
Proof.
  unfold pystr.join. induction s as [|x s IH]; simpl; [reflexivity|].
  destruct (Ascii.eqb x c) eqn:E.
  - apply Ascii.eqb_eq in E; subst x.
    rewrite concat_cons by apply split_nonempty. simpl. now rewrite IH.
  - destruct (split c s) as [|w ws] eqn:Es; [now apply split_nonempty in Es|].
    destruct ws as [|w' ws]; simpl in *; now rewrite IH.
Qed.

(** Splitting what was joined gives the parts back. *)
Lemma split_join (c : ascii) (ws : list string) :
  ws <> [] ->
  Forall (fun w => contains c w = false) ws ->
  split c (pystr.join (String c "") ws) = ws.
Proof.
  unfold pystr.join. intros Hne Hall.
  induction Hall as [|w ws Hw Hws IH]; [congruence|].
  destruct ws as [|w' ws'].
  - simpl. now apply split_no_sep.
  - rewrite concat_cons by discriminate.
    change (String c "" ++ String.concat (String c "") (w' :: ws'))
      with (String c (String.concat (String c "") (w' :: ws'))).
    rewrite split_app_sep, IH, (split_no_sep _ _ Hw) by discriminate.
    reflexivity.
Qed.

Lemma endswith_app (p a : string) : endswith p (a ++ p) = true.
Proof.
  induction a as [|x a IH]; simpl.
  - destruct p; cbn [append endswith]; now rewrite String.eqb_refl.
  - rewrite IH. apply orb_true_r.
Qed.

Lemma endswith_app_nonempty (p a b : string) :
  b <> "" -> String.length p <= 1 -> endswith p (a ++ b) = endswith p b.
Proof.
  intros Hb Hp. induction a as [|x a IH]; [reflexivity|].
  cbn [append endswith]. rewrite IH.
  destruct (String x (a ++ b) =? p) eqn:E; [|reflexivity].
  apply String.eqb_eq in E. subst p.
  destruct (a ++ b) eqn:Eab; simpl in Hp; [|lia].
  apply app_eq_nil in Eab as [_ ?]. contradiction.
Qed.

Lemma prefix_app (p s : string) : String.prefix p (p ++ s) = true.
Proof.
  induction p as [|x p IH]; simpl; [now destruct s|].
  destruct (ascii_dec x x); [exact IH | congruence].
Qed.

Lemma substring_0_app (p s : string) :
  substring 0 (String.length p) (p ++ s) = p.
Proof.
  induction p as [|x p IH]; simpl; [now destruct s | now rewrite IH].
Qed.

Lemma count_app (c : ascii) (a b : string) :
  count c (a ++ b) = count c a + count c b.
Proof.
  induction a as [|x a IH]; simpl; [reflexivity|]. rewrite IH. lia.
Qed.

Lemma contains_app (c : ascii) (a b : string) :
  contains c (a ++ b) = contains c a || contains c b.
Proof.
  induction a as [|x a IH]; simpl; [reflexivity|].
  rewrite IH. now rewrite orb_assoc.
Qed.

End StrFacts.

(** ** Texts that can be encoded *)

Module Utf8Facts.
Import pystr utf8.

Lemma run_app (st : state) (a b : string) :
  run st (a ++ b) = run (run st a) b.
Proof.
  revert st. induction a as [|c a IH]; intros st; simpl; [reflexivity|].
  apply IH.
Qed.

Lemma valid_run (a : string) : valid a = true -> run Start a = Start.
Proof. unfold valid. destruct (run Start a); congruence. Qed.

(** After a text that can be encoded, the codec starts afresh. *)
Lemma valid_app_eq (a b : string) :
  valid a = true -> valid (a ++ b) = valid b.
Proof.
  intros Ha. unfold valid. now rewrite run_app, (valid_run a Ha).
Qed.

Lemma valid_app (a b : string) :
  valid a = true -> valid b = true -> valid (a ++ b) = true.
Proof. intros Ha Hb. now rewrite valid_app_eq. Qed.

Lemma valid_header (p : string) :
  valid p = true -> valid (header p) = true.
Proof.
  intros Hp. unfold header.
  apply valid_app; [reflexivity|]. apply valid_app; [exact Hp|]. reflexivity.
Qed.

Lemma valid_separator : valid separator = true.
Proof. reflexivity. Qed.

Lemma valid_join_names (names : list string) :
  forallb valid names = true -> valid (pystr.join "/" names) = true.
Proof.
  unfold pystr.join. induction names as [|x names IH]; [reflexivity|].
  cbn [forallb]. intros H. apply andb_true_iff in H as [Hx Hn].
  destruct names as [|y names]; [exact Hx|].
  rewrite StrFacts.concat_cons by discriminate.
  apply valid_app; [exact Hx|]. apply valid_app; [reflexivity | auto].
Qed.

Lemma valid_posix_join (a b : string) :
  valid a = true -> valid b = true -> valid (posixpath.join a b) = true.
Proof.
  intros Ha Hb. unfold posixpath.join.
  destruct (startswith "/" b); [exact Hb|].
  destruct (_ || _); [now apply valid_app|].
  apply valid_app; [exact Ha|]. now apply valid_app.
Qed.

Lemma valid_join_all (names : list string) :
  forall a, valid a = true -> forallb valid names = true ->
            valid (posixpath.join_all a names) = true.
Proof.
  unfold posixpath.join_all.
  induction names as [|x names IH]; intros a Ha H; [exact Ha|].
  cbn [forallb] in H. apply andb_true_iff in H as [Hx Hn].
  cbn [fold_left]. apply IH; [now apply valid_posix_join | exact Hn].
Qed.

Lemma valid_diagnostic (filepath cause : string) :
  valid filepath = true -> valid cause = true ->
  valid ("Could not read file " ++ filepath ++ ": " ++ cause) = true.
Proof.
  intros Hf Hc. apply valid_app; [reflexivity|].
  apply valid_app; [exact Hf|]. now apply valid_app.
Qed.

End Utf8Facts.

(** ** Reading a bundle back *)

Module BundleFacts.
Import pystr BundleFormat.

Lemma header_is_line (p : string) : header p = header_line p ++ nl.
Proof. unfold header, header_line. now rewrite !StrFacts.app_assoc. Qed.

Lemma is_header_header_line (p : string) : is_header (header_line p) = true.
Proof.
  unfold is_header, header_line, startswith. apply andb_true_iff. split.
  - apply StrFacts.prefix_app.
  - rewrite <- StrFacts.app_assoc. apply StrFacts.endswith_app.
Qed.

Lemma header_path_header_line (p : string) :
  header_path (header_line p) = p.
Proof.
  unfold header_path, header_line.
  rewrite !StrFacts.length_app.
  replace (String.length "--- " + (String.length p + String.length " ---") - 8)
    with (String.length p) by (simpl; lia).
  change (substring 4 (String.length p) ("--- " ++ p ++ " ---"))
    with (substring 0 (String.length p) (p ++ " ---")).
  apply StrFacts.substring_0_app.
Qed.

Lemma header_line_no_newline (p : string) :
  contains LF p = false -> contains LF (header_line p) = false.
Proof.
  intros H. unfold header_line.
  rewrite !StrFacts.contains_app, H. reflexivity.
Qed.

Lemma lines_of_empty : lines_of "" = [].
Proof. reflexivity. Qed.

Lemma lines_of_line (a b : string) :
  lines_of (a ++ String LF b) = (split LF a ++ lines_of b)%list.
Proof.
  unfold lines_of. rewrite StrFacts.split_app_sep.
  apply removelast_app, StrFacts.split_nonempty.
Qed.

Lemma lines_of_header (p rest : string) :
  contains LF p = false ->
  lines_of (header p ++ rest) = header_line p :: lines_of rest.
Proof.
  intros H. rewrite header_is_line, StrFacts.app_assoc.
  change (nl ++ rest) with (String LF rest).
  rewrite lines_of_line, (StrFacts.split_no_sep LF (header_line p)).
  - reflexivity.
  - now apply header_line_no_newline.
Qed.

Lemma lines_of_content (c rest : string) :
  lines_of (c ++ separator ++ rest) =
  (split LF c ++ "" :: lines_of rest)%list.
Proof.
  change (c ++ separator ++ rest) with (c ++ String LF ("" ++ String LF rest)).
  now rewrite !lines_of_line.
Qed.

Lemma lines_of_render_item (it : item) (rest : string) :
  contains LF (fst it) = false ->
  lines_of (render_item it ++ rest) =
  header_line (fst it) ::
  match snd it with
  | Some c => (split LF c ++ "" :: lines_of rest)%list
  | None => lines_of rest
  end.
Proof.
  intros H. unfold render_item. destruct (snd it) as [c|].
  - rewrite !StrFacts.app_assoc, lines_of_header by exact H.
    now rewrite lines_of_content.
  - now apply lines_of_header.
Qed.

(** The lines of a rendered list of items start with a header, if there
    are any. *)
Lemma take_body_render (items : list item) (body : list string) :
  Forall item_ok items ->
  forallb (fun l => negb (is_header l)) body = true ->
  take_body (body ++ lines_of (render items)) = body.
Proof.
  intros Hitems Hbody. induction body as [|l body IH]; simpl.
  - destruct Hitems as [|it items [Hnl _] _]; [reflexivity|].
    simpl. rewrite lines_of_render_item by exact Hnl.
    simpl. now rewrite is_header_header_line.
  - simpl in Hbody. apply andb_true_iff in Hbody as [Hl Hb].
    apply negb_true_iff in Hl. rewrite Hl, (IH Hb). reflexivity.
Qed.

Lemma records_of_skip (body lines : list string) :
  forallb (fun l => negb (is_header l)) body = true ->
  records_of (body ++ lines) = records_of lines.
Proof.
  induction body as [|l body IH]; simpl; [reflexivity|].
  intros H. apply andb_true_iff in H as [Hl Hb].
  apply negb_true_iff in Hl. rewrite Hl. exact (IH Hb).
Qed.

Lemma body_text_content (c : string) :
  body_text (split LF c ++ [""]) = c.
Proof.
  unfold body_text. rewrite removelast_last. apply StrFacts.join_split.
Qed.

Lemma forallb_snoc {A} (f : A -> bool) (xs : list A) (x : A) :
  forallb f (xs ++ [x]) = forallb f xs && f x.
Proof. rewrite forallb_app. simpl. now rewrite andb_true_r. Qed.

(** Reading back what was rendered gives the items, in order: the path and
    the content of each whole record, the path and an empty content for
    each header left alone. *)
Lemma parse_render (items : list item) :
  Forall item_ok items ->
  parse_bundle (render items) = map parsed_item items.
Proof.
  unfold parse_bundle.
  induction 1 as [|[p oc] items [Hnl Hc] Hitems IH]; [reflexivity|].
  simpl in Hnl, Hc. simpl render.
  rewrite lines_of_render_item by exact Hnl. simpl fst; simpl snd.
  cbn [records_of]. rewrite is_header_header_line, header_path_header_line.
  cbn [map fst snd]. unfold parsed_item at 1; cbn [fst snd].
  destruct oc as [c|].
  - specialize (Hc c eq_refl). unfold header_free in Hc.
    assert (Hbody : forallb (fun l => negb (is_header l))
                      (split LF c ++ [""]) = true)
      by (rewrite forallb_snoc, Hc; reflexivity).
    change (split LF c ++ "" :: lines_of (render items))%list
      with (split LF c ++ [""] ++ lines_of (render items))%list.
    rewrite List.app_assoc.
    rewrite take_body_render, records_of_skip, body_text_content, IH;
      auto.
  - pose proof (take_body_render items [] Hitems eq_refl) as Ht.
    simpl in Ht. rewrite Ht, IH. reflexivity.
Qed.

(** *** One record among others *)

Lemma render_app (pre post : list item) :
  render (pre ++ post) = render pre ++ render post.
Proof.
  induction pre as [|it pre IH]; [reflexivity|].
  cbn [app render]. now rewrite IH, StrFacts.app_assoc.
Qed.

Lemma take_body_render_paths (items : list item) (body : list string) :
  Forall (fun it => contains LF (fst it) = false) items ->
  forallb (fun l => negb (is_header l)) body = true ->
  take_body (body ++ lines_of (render items)) = body.
Proof.
  intros Hitems Hbody. induction body as [|l body IH]; simpl.
  - destruct Hitems as [|it items Hnl _]; [reflexivity|].
    simpl. rewrite lines_of_render_item by exact Hnl.
    simpl. now rewrite is_header_header_line.
  - simpl in Hbody. apply andb_true_iff in Hbody as [Hl Hb].
    apply negb_true_iff in Hl. rewrite Hl, (IH Hb). reflexivity.
Qed.

Lemma lines_of_render_before (pre : list item) :
  Forall (fun it => contains LF (fst it) = false) pre ->
  forall rest, exists before,
    lines_of (render pre ++ rest) = (before ++ lines_of rest)%list.
Proof.
  induction 1 as [|it pre Hnl _ IH]; intros rest.
  - exists []. reflexivity.
  - destruct (IH rest) as [before Hbefore].
    cbn [render]. rewrite StrFacts.app_assoc.
    rewrite lines_of_render_item by exact Hnl. rewrite Hbefore.
    destruct (snd it) as [c|].
    + exists (header_line (fst it) :: split LF c ++ "" :: before)%list.
      cbn [app]. f_equal. rewrite <- List.app_assoc. reflexivity.
    + exists (header_line (fst it) :: before). reflexivity.
Qed.

Lemma records_of_after (before lines : list string)
    (r : string * list string) :
  In r (records_of lines) -> In r (records_of (before ++ lines)).
Proof.
  intros H. induction before as [|l before IH]; [exact H|].
  cbn [app records_of]. destruct (is_header l); [now right | exact IH].
Qed.

(** A whole record whose content has no line that reads as a header is
    read back, whatever the contents of the records around it are, when no
    path has a newline. *)
Lemma parse_render_member (pre post : list item) (p c : string) :
  Forall (fun it => contains LF (fst it) = false)
    (pre ++ (p, Some c) :: post) ->
  header_free c = true ->
  In (p, c) (parse_bundle (render (pre ++ (p, Some c) :: post))).
Proof.
  intros Hpaths Hc.
  apply Forall_app in Hpaths as [Hpre Hrest].
  inversion Hrest as [|? ? Hp Hpost]; subst. cbn [fst] in Hp.
  unfold parse_bundle. rewrite render_app.
  destruct (lines_of_render_before pre Hpre (render ((p, Some c) :: post)))
    as [before ->].
  assert (Hbody : forallb (fun l => negb (is_header l))
                    (split LF c ++ [""]) = true)
    by (unfold header_free in Hc; rewrite forallb_snoc, Hc; reflexivity).
  assert (Hin : In (p, (split LF c ++ [""])%list)
                  (records_of
                     (before ++ lines_of (render ((p, Some c) :: post))))).
  { apply records_of_after. cbn [render].
    rewrite lines_of_render_item by exact Hp. cbn [fst snd records_of].
    rewrite is_header_header_line, header_path_header_line.
    left. f_equal.
    change (split LF c ++ "" :: lines_of (render post))%list
      with (split LF c ++ [""] ++ lines_of (render post))%list.
    rewrite List.app_assoc. now apply take_body_render_paths. }
  apply (in_map (fun r => (fst r, body_text (snd r)))) in Hin.
  cbn [fst snd] in Hin. now rewrite body_text_content in Hin.
Qed.

(** A bundle of whole records has at least three newlines per record. *)
Lemma whole_records_newlines (recs : list (string * string)) :
  3 * List.length recs <= count LF (render (map whole_record recs)).
Proof.
  induction recs as [|[p c] recs IH]; [simpl; lia|].
  cbn [map render List.length]. unfold render_item, whole_record at 1.
  cbn [fst snd]. unfold header, separator.
  rewrite !StrFacts.count_app.
  change (count LF nl) with 1. lia.
Qed.

End BundleFacts.

(** ** Relative paths of the files of a traversal *)

Module PathFacts.
Import pystr posixpath.

Lemma plain_name_spec (n : string) :
  plain_name n = true ->
  n <> "" /\ contains SLASH n = false /\ n <> "." /\ n <> "..".
Proof.
  unfold plain_name. intros H.
  apply andb_true_iff in H as [H H4]. apply andb_true_iff in H as [H H3].
  apply andb_true_iff in H as [H1 H2].
  apply negb_true_iff in H1, H2, H3, H4.
  apply String.eqb_neq in H1, H3, H4. auto.
Qed.

Lemma prefix_empty (s : string) : String.prefix "" s = true.
Proof. now destruct s. Qed.

Lemma no_slash_startswith (n : string) :
  contains SLASH n = false -> startswith "/" n = false.
Proof.
  unfold startswith. destruct n as [|x n]; [reflexivity|].
  cbn [contains String.prefix].
  intros H. apply orb_false_iff in H as [Hx _].
  destruct (ascii_dec "/" x) as [E|]; [|reflexivity].
  subst x. discriminate.
Qed.

Lemma no_slash_endswith (n : string) :
  contains SLASH n = false -> endswith "/" n = false.
Proof.
  induction n as [|x n IH]; [reflexivity|].
  cbn [contains endswith]. intros H. apply orb_false_iff in H as [Hx Hn].
  rewrite (IH Hn), orb_false_r. apply String.eqb_neq.
  intros E. inversion E; subst. discriminate.
Qed.

Lemma startswith_slash_app (a x : string) :
  a <> "" -> startswith "/" (a ++ x) = startswith "/" a.
Proof.
  unfold startswith. destruct a as [|c a]; [congruence|]. intros _.
  cbn [append String.prefix].
  destruct (ascii_dec "/" c); [now rewrite !prefix_empty | reflexivity].
Qed.

Lemma endswith_slash_inv (s : string) :
  endswith "/" s = true -> exists q, s = q ++ "/".
Proof.
  induction s as [|x s IH]; cbn [endswith]; intros H.
  - discriminate.
  - apply orb_true_iff in H as [H|H].
    + apply String.eqb_eq in H. exists "". exact H.
    + destruct (IH H) as [q ->]. exists (String x q). reflexivity.
Qed.

Lemma eqb_empty_false (s : string) : s <> "" -> (s =? "") = false.
Proof. intros H. now apply String.eqb_neq. Qed.

(** *** [join] with a plain name *)

Lemma join_plain (a n : string) :
  a <> "" -> plain_name n = true ->
  join a n = if endswith "/" a then a ++ n else a ++ "/" ++ n.
Proof.
  intros Ha Hn. apply plain_name_spec in Hn as (_ & Hs & _).
  unfold join. rewrite (no_slash_startswith n Hs), (eqb_empty_false a Ha).
  reflexivity.
Qed.

Lemma join_plain_nonempty (a n : string) :
  a <> "" -> plain_name n = true -> join a n <> "".
Proof.
  intros Ha Hn. rewrite (join_plain a n Ha Hn).
  destruct (endswith "/" a); intros E;
    apply StrFacts.app_eq_nil in E as [? _]; contradiction.
Qed.

Lemma join_plain_startswith (a n : string) :
  a <> "" -> plain_name n = true ->
  startswith "/" (join a n) = startswith "/" a.
Proof.
  intros Ha Hn. rewrite (join_plain a n Ha Hn).
  destruct (endswith "/" a); now apply startswith_slash_app.
Qed.

Lemma join_all_plain_nonempty (names : list string) :
  forall a, a <> "" -> Forall (fun n => plain_name n = true) names ->
            join_all a names <> "".
Proof.
  unfold join_all. induction names as [|n names IH]; intros a Ha Hall.
  - exact Ha.
  - inversion Hall; subst. simpl. apply IH; [|assumption].
    now apply join_plain_nonempty.
Qed.

(** *** Making a path absolute commutes with descending *)

Section Absolute.

Variable cwd : string.
Hypothesis cwd_absolute : startswith "/" cwd = true.

Lemma cwd_nonempty : cwd <> "".
Proof. intros E. rewrite E in cwd_absolute. discriminate. Qed.

Lemma abspath_absolutize (path : string) :
  abspath cwd path = normpath (absolutize cwd path).
Proof.
  unfold abspath, absolutize. now destruct (startswith "/" path).
Qed.

Lemma join_cwd (p : string) :
  startswith "/" p = false ->
  join cwd p = if endswith "/" cwd then cwd ++ p else cwd ++ "/" ++ p.
Proof.
  intros Hp. unfold join.
  rewrite Hp, (eqb_empty_false cwd cwd_nonempty). reflexivity.
Qed.

Lemma absolutize_absolute (p : string) :
  startswith "/" (absolutize cwd p) = true.
Proof.
  unfold absolutize. destruct (startswith "/" p) eqn:E; [exact E|].
  rewrite (join_cwd p E).
  destruct (endswith "/" cwd);
    rewrite startswith_slash_app by exact cwd_nonempty;
    exact cwd_absolute.
Qed.

Lemma absolutize_join (a n : string) :
  a <> "" -> plain_name n = true ->
  absolutize cwd (join a n) = join (absolutize cwd a) n.
Proof.
  intros Ha Hn. unfold absolutize.
  rewrite (join_plain_startswith a n Ha Hn).
  destruct (startswith "/" a) eqn:Es; [reflexivity|].
  assert (Hj : startswith "/" (join a n) = false)
    by now rewrite (join_plain_startswith a n Ha Hn).
  rewrite (join_cwd a Es), (join_cwd (join a n) Hj).
  rewrite (join_plain a n Ha Hn).
  destruct (endswith "/" cwd), (endswith "/" a) eqn:Ea.
  - rewrite join_plain; auto.
    + rewrite StrFacts.endswith_app_nonempty, Ea by (auto; simpl; lia).
      now rewrite StrFacts.app_assoc.
    + intros E. apply StrFacts.app_eq_nil in E as [_ ?]. contradiction.
  - rewrite join_plain; auto.
    + rewrite StrFacts.endswith_app_nonempty, Ea by (auto; simpl; lia).
      now rewrite StrFacts.app_assoc.
    + intros E. apply StrFacts.app_eq_nil in E as [_ ?]. contradiction.
  - rewrite join_plain; auto.
    + rewrite <- (StrFacts.app_assoc cwd "/" a).
      rewrite StrFacts.endswith_app_nonempty, Ea by (auto; simpl; lia).
      now rewrite !StrFacts.app_assoc.
    + intros E. apply StrFacts.app_eq_nil in E as [? _]. 
      now apply cwd_nonempty.
  - rewrite join_plain; auto.
    + rewrite <- (StrFacts.app_assoc cwd "/" a).
      rewrite StrFacts.endswith_app_nonempty, Ea by (auto; simpl; lia).
      now rewrite !StrFacts.app_assoc.
    + intros E. apply StrFacts.app_eq_nil in E as [? _]. 
      now apply cwd_nonempty.
Qed.

Lemma absolutize_join_all (names : list string) :
  forall a, a <> "" -> Forall (fun n => plain_name n = true) names ->
    absolutize cwd (join_all a names) = join_all (absolutize cwd a) names.
Proof.
  unfold join_all. induction names as [|n names IH]; intros a Ha Hall.
  - reflexivity.
  - inversion Hall; subst. simpl.
    rewrite IH by (auto using join_plain_nonempty).
    now rewrite absolutize_join.
Qed.

End Absolute.

(** *** [normpath] keeps the names appended to an absolute path *)

Lemma absolute_nonempty (p : string) : startswith "/" p = true -> p <> "".
Proof. intros H E. rewrite E in H. discriminate. Qed.

Lemma initial_slashes_absolute (p : string) :
  startswith "/" p = true -> initial_slashes_of p <> 0.
Proof.
  intros H. unfold initial_slashes_of. rewrite H.
  destruct (_ && _); discriminate.
Qed.

Lemma norm_step_absolute (k : nat) (acc : list string) (c : string) :
  k <> 0 -> norm_step k acc c = norm_step 1 acc c.
Proof. destruct k; [congruence | reflexivity]. Qed.

Lemma fold_left_ext {A B} (f g : A -> B -> A) (xs : list B) :
  (forall a x, f a x = g a x) ->
  forall a, fold_left f xs a = fold_left g xs a.
Proof.
  intros H. induction xs as [|x xs IH]; intros a; simpl;
    [reflexivity | now rewrite H, IH].
Qed.

Lemma norm_comps_absolute (p : string) :
  startswith "/" p = true ->
  norm_comps p = fold_left (norm_step 1) (split SLASH p) [].
Proof.
  intros H. unfold norm_comps. apply fold_left_ext.
  intros a x. apply norm_step_absolute, initial_slashes_absolute, H.
Qed.

Lemma norm_step_empty (k : nat) (acc : list string) :
  norm_step k acc "" = acc.
Proof. reflexivity. Qed.

Lemma norm_step_plain (k : nat) (acc : list string) (n : string) :
  plain_name n = true -> norm_step k acc n = (acc ++ [n])%list.
Proof.
  intros Hn. apply plain_name_spec in Hn as (H1 & _ & H3 & H4).
  apply String.eqb_neq in H1, H3, H4.
  unfold norm_step. now rewrite H1, H3, H4.
Qed.

Lemma norm_comps_join (p n : string) :
  startswith "/" p = true -> plain_name n = true ->
  norm_comps (join p n) = (norm_comps p ++ [n])%list.
Proof.
  intros Hp Hn. pose proof (absolute_nonempty p Hp) as Hne.
  rewrite !norm_comps_absolute
    by (try rewrite join_plain_startswith; auto).
  rewrite (join_plain p n Hne Hn).
  pose proof (plain_name_spec n Hn) as (_ & Hs & _).
  destruct (endswith "/" p) eqn:E.
  - apply endswith_slash_inv in E as [q ->].
    rewrite StrFacts.app_assoc.
    change ("/" ++ n) with (String SLASH n).
    change (q ++ "/") with (q ++ String SLASH "").
    rewrite !StrFacts.split_app_sep, (StrFacts.split_no_sep _ _ Hs).
    rewrite !fold_left_app. simpl fold_left.
    now rewrite norm_step_empty, norm_step_plain.
  - change ("/" ++ n) with (String SLASH n).
    rewrite StrFacts.split_app_sep, (StrFacts.split_no_sep _ _ Hs).
    rewrite fold_left_app. simpl fold_left.
    now rewrite norm_step_plain.
Qed.

Lemma norm_comps_join_all (names : list string) :
  forall p, startswith "/" p = true ->
            Forall (fun n => plain_name n = true) names ->
            norm_comps (join_all p names) = (norm_comps p ++ names)%list.
Proof.
  unfold join_all. induction names as [|n names IH]; intros p Hp Hall.
  - simpl. now rewrite List.app_nil_r.
  - inversion Hall; subst. simpl.
    rewrite IH, norm_comps_join, <- List.app_assoc; auto.
    rewrite join_plain_startswith; auto using absolute_nonempty.
Qed.

(** *** The components of a normalised absolute path *)

Lemma Forall_removelast {A} (P : A -> Prop) (l : list A) :
  Forall P l -> Forall P (removelast l).
Proof.
  induction 1 as [|x l Hx Hl IH]; simpl; [constructor|].
  destruct l; [constructor | now constructor].
Qed.

Lemma norm_step_proper (k : nat) (acc : list string) (c : string) :
  Forall proper_comp acc -> contains SLASH c = false ->
  Forall proper_comp (norm_step k acc c).
Proof.
  intros Hacc Hc. unfold norm_step.
  destruct (c =? "") eqn:E; [exact Hacc|].
  destruct (c =? "."); [exact Hacc|]. cbn [orb].
  destruct (_ || _).
  - apply Forall_app. split; [exact Hacc|].
    repeat constructor; [|exact Hc]. unfold truthy. now rewrite E.
  - now apply Forall_removelast.
Qed.

Lemma fold_norm_step_proper (k : nat) (cs : list string) :
  Forall (fun w => contains SLASH w = false) cs ->
  forall acc, Forall proper_comp acc ->
              Forall proper_comp (fold_left (norm_step k) cs acc).
Proof.
  induction 1 as [|c cs Hc Hcs IH]; intros acc Hacc; simpl; [exact Hacc|].
  apply IH. now apply norm_step_proper.
Qed.

Lemma norm_comps_proper (p : string) : Forall proper_comp (norm_comps p).
Proof.
  unfold norm_comps. apply fold_norm_step_proper; [|constructor].
  apply StrFacts.split_parts_no_sep.
Qed.

Lemma components_slash (p : string) :
  components (String SLASH p) = components p.
Proof. reflexivity. Qed.

Lemma filter_truthy_proper (cs : list string) :
  Forall proper_comp cs -> filter truthy cs = cs.
Proof.
  induction 1 as [|c cs [Hc _] _ IH]; simpl; [reflexivity|].
  now rewrite Hc, IH.
Qed.

Lemma components_join (cs : list string) :
  Forall proper_comp cs -> components (pystr.join "/" cs) = cs.
Proof.
  intros H. unfold components. destruct cs as [|c cs]; [reflexivity|].
  change "/" with (String SLASH "").
  rewrite StrFacts.split_join.
  - now apply filter_truthy_proper.
  - discriminate.
  - eapply Forall_impl; [|exact H]. now intros w [_ Hw].
Qed.

Lemma components_normpath (p : string) :
  startswith "/" p = true -> components (normpath p) = norm_comps p.
Proof.
  intros Hp. unfold normpath.
  rewrite (eqb_empty_false p (absolute_nonempty p Hp)).
  fold (norm_comps p).
  pose proof (initial_slashes_absolute p Hp) as Hk.
  pose proof (norm_comps_proper p) as Hproper.
  destruct (initial_slashes_of p) as [|[|k]]; [congruence| |].
  - change ("/" ++ pystr.join "/" (norm_comps p))
      with (String SLASH (pystr.join "/" (norm_comps p))).
    cbn [String.eqb]. rewrite components_slash.
    now apply components_join.
  - change ("//" ++ pystr.join "/" (norm_comps p))
      with (String SLASH (String SLASH (pystr.join "/" (norm_comps p)))).
    cbn [String.eqb]. rewrite !components_slash.
    now apply components_join.
Qed.

(** *** The common prefix and the final join *)

Lemma commonprefix_app (b x : list string) :
  commonprefix b (b ++ x) = b.
Proof.
  induction b as [|w b IH]; simpl; [reflexivity|].
  now rewrite String.eqb_refl, IH.
Qed.

Lemma skipn_length_app {A} (b x : list A) :
  skipn (List.length b) (b ++ x) = x.
Proof. induction b; simpl; auto. Qed.

Lemma join_all_concat (p : list string) :
  forall a, a <> "" -> endswith "/" a = false ->
            Forall (fun n => plain_name n = true) p ->
            join_all a p = pystr.join "/" (a :: p).
Proof.
  unfold join_all, pystr.join.
  induction p as [|b p IH]; intros a Ha He Hall; [reflexivity|].
  inversion Hall as [|? ? Hb Hp]; subst. cbn [fold_left].
  pose proof (plain_name_spec b Hb) as (Hb1 & Hb2 & _).
  rewrite (join_plain a b Ha Hb), He.
  rewrite IH; auto.
  - rewrite (StrFacts.concat_cons "/" a (b :: p)) by discriminate.
    destruct p as [|c p]; [reflexivity|].
    rewrite !(StrFacts.concat_cons "/" _ (c :: p)) by discriminate.
    now rewrite !StrFacts.app_assoc.
  - intros E. apply StrFacts.app_eq_nil in E as [? _]. contradiction.
  - rewrite <- StrFacts.app_assoc.
    rewrite StrFacts.endswith_app_nonempty by (auto; simpl; lia).
    now apply no_slash_endswith.
Qed.

(** The relative path of a file reached by descending from the start path
    through plain names is those names joined by slashes, whatever the
    start path and the current directory are. *)
Lemma relpath_descend (cwd start_path : string) (names : list string) :
  startswith "/" cwd = true ->
  start_path <> "" ->
  names <> [] ->
  Forall (fun n => plain_name n = true) names ->
  relpath cwd (join_all start_path names) start_path
  = Ok (pystr.join "/" names).
Proof.
  intros Hcwd Hstart Hne Hall. unfold relpath.
  rewrite (eqb_empty_false _ (join_all_plain_nonempty names _ Hstart Hall)).
  rewrite !(abspath_absolutize cwd).
  rewrite (absolutize_join_all cwd Hcwd names _ Hstart Hall).
  pose proof (absolutize_absolute cwd Hcwd start_path) as Habs.
  rewrite !components_normpath.
  - rewrite (norm_comps_join_all names _ Habs Hall).
    rewrite commonprefix_app, Nat.sub_diag, skipn_length_app. simpl.
    destruct names as [|a p]; [congruence|].
    inversion Hall as [|? ? Ha Hp]; subst.
    pose proof (plain_name_spec a Ha) as (Ha1 & Ha2 & _).
    rewrite join_all_concat; auto using no_slash_endswith.
  - clear Hne. revert Habs.
    generalize (absolutize cwd start_path) as p.
    induction Hall as [|n names Hn Hnames IH]; intros p Hp; [exact Hp|].
    apply IH. unfold join_all. simpl.
    rewrite join_plain_startswith; auto using absolute_nonempty.
  - exact Habs.
Qed.

End PathFacts.

(** ** Induction on trees and the unfoldings of the nested loops *)

Lemma node_induction (P : node -> Prop) :
  (forall st, P (File st)) ->
  (forall b es, Forall (fun e => P (snd e)) es -> P (Dir b es)) ->
  forall n, P n.
Proof.
  intros Hfile Hdir. fix IH 1. intros [st|b es].
  - apply Hfile.
  - apply Hdir. induction es as [|[name child] es IHes].
    + constructor.
    + constructor; [apply IH | apply IHes].
Qed.

Lemma walk_dir (top : string) (es : list (string * node)) :
  walk top (Dir true es) =
  (top, dirnames es, filenames es) :: walk_entries top es.
Proof.
  simpl. f_equal.
  induction es as [|[name [st|b es']] es IH]; simpl; congruence.
Qed.

Lemma walk_entries_cons_dir (top name : string) (child : node) es :
  is_dir child = true ->
  walk_entries top ((name, child) :: es) =
  (walk (posixpath.join top name) child ++ walk_entries top es)%list.
Proof. destruct child; [discriminate | reflexivity]. Qed.

Lemma as_empty_dir (es : list (string * node)) :
  as_empty (Dir true es) = Dir true (as_empty_entries es).
Proof. reflexivity. Qed.

Lemma visited_dir (es : list (string * node)) :
  visited_files (Dir true es) =
  (map (fun f => ([fst f], snd f)) (filenames es) ++ visited_entries es)%list.
Proof. reflexivity. Qed.

Lemma reachable_dir (es : list (string * node)) :
  reachable_files (Dir true es) = reachable_entries es.
Proof. reflexivity. Qed.

Lemma all_names_dir ok b (es : list (string * node)) :
  all_names ok (Dir b es) = all_names_entries ok es.
Proof.
  simpl. induction es as [|[name child] es IH]; simpl; congruence.
Qed.

Lemma all_files_dir ok b (es : list (string * node)) :
  all_files ok (Dir b es) = all_files_entries ok es.
Proof.
  simpl. induction es as [|[name child] es IH]; simpl; congruence.
Qed.

(** ** The monad: every computation of the loop appends *)

Section Appends.

Lemma appends_ret {A} (a : A) : appends (ret a).
Proof.
  intros [o c]; unfold ret; simpl.
  now rewrite StrFacts.app_nil_r, List.app_nil_r.
Qed.

Lemma appends_raise {A} (e : string) : appends (@raise A e).
Proof.
  intros [o c]; unfold raise; simpl.
  now rewrite StrFacts.app_nil_r, List.app_nil_r.
Qed.

Lemma appends_lift {A} (r : outcome A) : appends (lift r).
Proof.
  intros [o c]; unfold lift; simpl.
  now rewrite StrFacts.app_nil_r, List.app_nil_r.
Qed.

Lemma appends_write (t : string) : appends (write t).
Proof.
  intros [o c]; unfold write; simpl. destruct (utf8.valid t); simpl.
  - now rewrite List.app_nil_r.
  - now rewrite StrFacts.app_nil_r, List.app_nil_r.
Qed.

Lemma appends_print (l : string) : appends (print l).
Proof.
  intros [o c]; unfold print; simpl. destruct (utf8.valid l); simpl.
  - now rewrite StrFacts.app_nil_r.
  - now rewrite StrFacts.app_nil_r, List.app_nil_r.
Qed.

Lemma appends_bind {A B} (m : M A) (k : A -> M B) :
  appends m -> (forall a, appends (k a)) -> appends (bind m k).
Proof.
  intros Hm Hk s. unfold bind.
  rewrite (Hm s). destruct (m io0) as [[a|e] [o1 c1]]; simpl.
  - rewrite (Hk a (mkIO o1 c1)), (Hk a (mkIO (outfile s ++ o1) _)); simpl.
    now rewrite StrFacts.app_assoc, List.app_assoc.
  - reflexivity.
Qed.

Lemma appends_try_except {A} (m : M A) (h : string -> M A) :
  appends m -> (forall e, appends (h e)) -> appends (try_except m h).
Proof.
  intros Hm Hh s. unfold try_except.
  rewrite (Hm s). destruct (m io0) as [[a|e] [o1 c1]]; simpl.
  - reflexivity.
  - rewrite (Hh e (mkIO o1 c1)), (Hh e (mkIO (outfile s ++ o1) _)); simpl.
    now rewrite StrFacts.app_assoc, List.app_assoc.
Qed.

Lemma appends_for_each {A} (xs : list A) (body : A -> M unit) :
  (forall x, appends (body x)) -> appends (for_each xs body).
Proof.
  intros Hb. induction xs as [|x xs IH]; simpl.
  - apply appends_ret.
  - apply appends_bind; auto.
Qed.

Lemma for_each_app {A} (xs ys : list A) (body : A -> M unit) (s : io) :
  for_each (xs ++ ys)%list body s =
  (for_each xs body ;;; for_each ys body) s.
Proof.
  revert s. induction xs as [|x xs IH]; intros s; simpl.
  - reflexivity.
  - unfold bind in *.
    destruct (body x s) as [[[]|e] s']; [apply IH | reflexivity].
Qed.

End Appends.

Create HintDb appends.
#[local] Hint Resolve appends_ret appends_raise appends_lift appends_write
  appends_print : appends.

Section BundlerFacts.

Variable cwd : string.

Lemma appends_open_r (st : file_state) : appends (open_r st).
Proof. destruct st; simpl; auto with appends. Qed.

Lemma appends_read (st : file_state) : appends (read st).
Proof. destruct st; simpl; auto with appends. Qed.

Lemma appends_bundle_one (start_path dirpath : string)
    (file : string * file_state) :
  appends (bundle_one cwd start_path dirpath file).
Proof.
  destruct file as [filename st]. unfold bundle_one.
  apply appends_bind; [apply appends_lift|]. intros rel.
  apply appends_try_except; [|intros; apply appends_print].
  apply appends_bind; [apply appends_open_r|]. intros infile.
  apply appends_bind; [apply appends_write|]. intros _.
  apply appends_bind; [apply appends_read|]. intros content.
  apply appends_bind; [apply appends_write|]. intros _.
  apply appends_write.
Qed.

Lemma appends_bundle_loop (start_path : string) triples :
  appends (bundle_loop cwd start_path triples).
Proof.
  unfold bundle_loop. apply appends_for_each.
  intros [[dirpath dirs] files].
  apply appends_for_each. apply appends_bundle_one.
Qed.

(** What a run writes and prints does not depend on what the output file
    held or on what the console showed before. *)
Lemma bundle_files_frame (start_path output_file : string) (w : world) :
  bundle_files cwd start_path output_file w =
  (fst (bundle_loop cwd start_path (os_walk start_path w) io0),
   mkWorld (fs_source w)
     (Some (outfile (snd (bundle_loop cwd start_path
                            (os_walk start_path w) io0))))
     (console w ++
      stdout (snd (bundle_loop cwd start_path
                     (os_walk start_path w) io0)))%list).
Proof.
  unfold bundle_files.
  rewrite (appends_bundle_loop start_path (os_walk start_path w)
             (mkIO "" (console w))).
  reflexivity.
Qed.


Lemma main_isdir_false (w : world) :
  isdir w = false ->
  main cwd w =
  (Ok tt,
   mkWorld (fs_source w) (fs_output w)
     (console w ++ ["Error: The directory 'src' does not exist."])%list).
Proof. intros H. unfold main. rewrite H. reflexivity. Qed.

Lemma main_fs_source (w : world) : fs_source (snd (main cwd w)) = fs_source w.
Proof.
  unfold main. destruct (isdir w); [|reflexivity].
  rewrite bundle_files_frame.
  destruct (bundle_loop cwd source_directory (os_walk source_directory w) io0)
    as [[[]|e] s']; reflexivity.
Qed.

Lemma main_isdir_true (w : world) :
  isdir w = true ->
  fs_output (snd (main cwd w)) =
  Some (outfile (snd (bundle_loop cwd source_directory
                        (os_walk source_directory w) io0))).
Proof.
  intros H. unfold main. rewrite H, bundle_files_frame.
  destruct (bundle_loop cwd source_directory (os_walk source_directory w) io0)
    as [[[]|e] s']; reflexivity.
Qed.

Lemma main_result (w : world) :
  fst (main cwd w) =
  if isdir w
  then fst (bundle_loop cwd source_directory
              (os_walk source_directory w) io0)
  else Ok tt.
Proof.
  unfold main. destruct (isdir w); [|reflexivity].
  rewrite bundle_files_frame.
  destruct (bundle_loop cwd source_directory (os_walk source_directory w) io0)
    as [[[]|e] s']; reflexivity.
Qed.

(** C3.  When the source path is not an existing directory, the entry
    point prints the error line naming the directory and does nothing
    else: nothing is traversed, the output file is neither created nor
    touched (a file left there by an earlier run keeps its content). *)
Theorem missing_source_reports_and_leaves_output (w : world) :
  isdir w = false ->
  main cwd w =
  (Ok tt,
   mkWorld (fs_source w) (fs_output w)
     (console w ++ ["Error: The directory 'src' does not exist."])%list)
  /\ fs_output (snd (main cwd w)) = fs_output w.
Proof.
  intros H. rewrite (main_isdir_false w H). split; reflexivity.
Qed.

Lemma write_valid (text : string) (s : io) :
  utf8.valid text = true ->
  write text s = (Ok tt, mkIO (outfile s ++ text) (stdout s)).
Proof. intros H. unfold write. now rewrite H. Qed.

Lemma print_valid (line : string) (s : io) :
  utf8.valid line = true ->
  print line s = (Ok tt, mkIO (outfile s) (stdout s ++ [line])%list).
Proof. intros H. unfold print. now rewrite H. Qed.

(** C6.  For a file that is opened and read (so that its header was
    written: its relative path can be encoded, as can the text that [read]
    returned), the loop body appends to the output exactly the header
    [--- ], the relative path, [ ---] and a newline, then the whole
    content, then two newlines; it prints nothing and does not raise. *)
Theorem record_appended_for_readable_file
    (start_path dirpath filename content relative_filepath : string)
    (s : io) :
  posixpath.relpath cwd (posixpath.join dirpath filename) start_path
    = Ok relative_filepath ->
  utf8.valid relative_filepath = true ->
  utf8.valid content = true ->
  bundle_one cwd start_path dirpath (filename, Text content) s =
  (Ok tt,
   mkIO (outfile s ++ "--- " ++ relative_filepath ++ " ---" ++ pystr.nl
         ++ content ++ pystr.nl ++ pystr.nl)
        (stdout s)).
Proof.
  intros Hrel Hpath Hcontent.
  unfold bundle_one, bind, lift, try_except. rewrite Hrel.
  cbn [open_r read ret].
  rewrite (write_valid _ s (Utf8Facts.valid_header _ Hpath)).
  rewrite (write_valid content _ Hcontent).
  rewrite (write_valid separator _ Utf8Facts.valid_separator).
  cbn [outfile stdout]. unfold header, separator.
  now rewrite !StrFacts.app_assoc.
Qed.

(** The two ways a file can fail.  When [open] raises, the output is left
    as it was; when [read] raises, the header has been written. *)
Lemma unopenable_file_leaves_output
    (start_path dirpath filename cause relative_filepath : string) (s : io) :
  posixpath.relpath cwd (posixpath.join dirpath filename) start_path
    = Ok relative_filepath ->
  utf8.valid ("Could not read file " ++ posixpath.join dirpath filename
              ++ ": " ++ cause) = true ->
  bundle_one cwd start_path dirpath (filename, Unopenable cause) s =
  (Ok tt,
   mkIO (outfile s)
        (stdout s ++ [("Could not read file "
                       ++ posixpath.join dirpath filename
                       ++ ": " ++ cause)%string])%list).
Proof.
  intros Hrel Hline. unfold bundle_one, bind, lift, try_except. rewrite Hrel.
  cbn [open_r raise]. now rewrite (print_valid _ s Hline).
Qed.

Lemma undecodable_file_leaves_header
    (start_path dirpath filename cause relative_filepath : string) (s : io) :
  posixpath.relpath cwd (posixpath.join dirpath filename) start_path
    = Ok relative_filepath ->
  utf8.valid relative_filepath = true ->
  utf8.valid ("Could not read file " ++ posixpath.join dirpath filename
              ++ ": " ++ cause) = true ->
  bundle_one cwd start_path dirpath (filename, Undecodable cause) s =
  (Ok tt,
   mkIO (outfile s ++ "--- " ++ relative_filepath ++ " ---" ++ pystr.nl)
        (stdout s ++ [("Could not read file "
                       ++ posixpath.join dirpath filename
                       ++ ": " ++ cause)%string])%list).
Proof.
  intros Hrel Hpath Hline.
  unfold bundle_one, bind, lift, try_except. rewrite Hrel.
  cbn [open_r read ret raise].
  rewrite (write_valid _ s (Utf8Facts.valid_header _ Hpath)).
  rewrite (print_valid _ _ Hline). cbn [outfile stdout].
  reflexivity.
Qed.

(** C7.  Running the program a second time, on the world the first run
    left behind, ends with the same result and the same bytes in the
    output file.  When the source directory exists, the output file exists
    after a run and its bytes are a function of the source tree (with the
    order of its listings) only: the second run, and a run from any other
    world with the same tree, whatever the output file and the console
    held there, leave exactly these bytes. *)
Theorem second_run_same_output (w w' : world) :
  fst (main cwd (snd (main cwd w))) = fst (main cwd w)
  /\ fs_output (snd (main cwd (snd (main cwd w))))
     = fs_output (snd (main cwd w))
  /\ (isdir w = true ->
      exists text,
        fs_output (snd (main cwd w)) = Some text
        /\ fs_output (snd (main cwd (snd (main cwd w)))) = Some text
        /\ (fs_source w' = fs_source w ->
            fs_output (snd (main cwd w')) = Some text
            /\ fst (main cwd w') = fst (main cwd w))).
Proof.
  assert (Hsame : forall v,
             fs_source v = fs_source w ->
             isdir v = isdir w
             /\ os_walk source_directory v = os_walk source_directory w).
  { intros v Hv. unfold isdir, os_walk. now rewrite Hv. }
  destruct (Hsame (snd (main cwd w)) (main_fs_source w)) as [Hdir Hwalk].
  split; [|split].
  - rewrite !main_result, Hdir, Hwalk. reflexivity.
  - destruct (isdir w) eqn:E.
    + rewrite (main_isdir_true (snd (main cwd w))) by congruence.
      rewrite (main_isdir_true w E), Hwalk. reflexivity.
    + rewrite (main_isdir_false (snd (main cwd w))) by congruence.
      reflexivity.
  - intros E. eexists. split; [apply (main_isdir_true w E)|]. split.
    + rewrite (main_isdir_true (snd (main cwd w))) by congruence.
      now rewrite Hwalk.
    + intros Hsrc. destruct (Hsame w' Hsrc) as [Hdir' Hwalk']. split.
      * rewrite (main_isdir_true w') by congruence. now rewrite Hwalk'.
      * rewrite !main_result, Hdir', Hwalk'. reflexivity.
Qed.

(** C8.  When the source directory exists, the output file exists after
    the run and its content is the same whatever the file held (or
    whether it existed) before, and whatever the console showed; the
    source tree is left as it was. *)
Theorem output_independent_of_prior_content
    (w : world) (prior : option string) (shown : list string) :
  isdir w = true ->
  fs_output (snd (main cwd (mkWorld (fs_source w) prior shown)))
    = fs_output (snd (main cwd w))
  /\ (exists text, fs_output (snd (main cwd w)) = Some text)
  /\ fs_source (snd (main cwd w)) = fs_source w.
Proof.
  intros H. split; [|split].
  - rewrite (main_isdir_true w H).
    rewrite (main_isdir_true (mkWorld (fs_source w) prior shown)) by exact H.
    reflexivity.
  - rewrite (main_isdir_true w H). eauto.
  - apply main_fs_source.
Qed.


(** *** Directories that cannot be listed *)

Lemma filenames_as_empty (es : list (string * node)) :
  filenames (as_empty_entries es) = filenames es.
Proof.
  induction es as [|[name [st|[] es']] es IH]; simpl; congruence.
Qed.

Lemma bundle_loop_cons (start_path dirpath : string) dirs files rest s :
  bundle_loop cwd start_path ((dirpath, dirs, files) :: rest) s =
  (for_each files (bundle_one cwd start_path dirpath) ;;;
   bundle_loop cwd start_path rest) s.
Proof. reflexivity. Qed.

Lemma bundle_loop_app (start_path : string) xs ys s :
  bundle_loop cwd start_path (xs ++ ys)%list s =
  (bundle_loop cwd start_path xs ;;; bundle_loop cwd start_path ys) s.
Proof. apply for_each_app. Qed.

Lemma bundle_loop_as_empty (start_path : string) (n : node) :
  forall top s,
    bundle_loop cwd start_path (walk top n) s =
    bundle_loop cwd start_path (walk top (as_empty n)) s.
Proof.
  induction n as [st|b es IH] using node_induction; intros top s.
  - reflexivity.
  - destruct b; [|reflexivity].
    rewrite as_empty_dir, !walk_dir, !bundle_loop_cons, filenames_as_empty.
    unfold bind.
    destruct (for_each (filenames es) _ s) as [[[]|e] s1]; [|reflexivity].
    clear s. revert s1.
    induction IH as [|[name child] es Hchild _ IHes]; intros s.
    + reflexivity.
    + simpl in Hchild. destruct child as [st|b' es'].
      * simpl. apply IHes.
      * change (as_empty_entries ((name, Dir b' es') :: es))
          with ((name, as_empty (Dir b' es')) :: as_empty_entries es).
        rewrite !walk_entries_cons_dir by (destruct b'; reflexivity).
        rewrite !bundle_loop_app. unfold bind.
        rewrite <- Hchild.
        destruct (bundle_loop cwd start_path _ s) as [[[]|e] s1];
          [apply IHes | reflexivity].
Qed.

(** C10.  The traversal of a directory that cannot be listed yields
    nothing, and a run over a tree gives the same result, the same output
    and the same console as a run over the tree in which every such
    directory is an empty directory: the files below it are not written
    and nothing is printed about it or about them. *)
Theorem unlistable_directory_skipped_silently
    (start_path output_file : string) (n : node)
    (prior : option string) (shown : list string) :
  let run t :=
    bundle_files cwd start_path output_file
      (mkWorld (Some t) prior shown) in
  (forall top es, walk top (Dir false es) = [])
  /\ fst (run n) = fst (run (as_empty n))
  /\ fs_output (snd (run n)) = fs_output (snd (run (as_empty n)))
  /\ console (snd (run n)) = console (snd (run (as_empty n))).
Proof.
  cbv zeta. split; [reflexivity|].
  unfold bundle_files, os_walk; cbn [fs_source console].
  rewrite (bundle_loop_as_empty start_path n start_path (mkIO "" shown)).
  destruct (bundle_loop cwd start_path _ _) as [r s]. auto.
Qed.

End BundlerFacts.

(** ** Reading in text mode *)

Lemma universal_newlines_without_cr (raw : string) :
  pystr.contains pystr.CR raw = false -> universal_newlines raw = raw.
Proof.
  induction raw as [|c raw IH]; [reflexivity|].
  cbn [pystr.contains universal_newlines]. intros H.
  apply orb_false_iff in H as [Hc Hraw]. rewrite Hc.
  now rewrite (IH Hraw).
Qed.

(** ** The whole run, file by file *)

Section RunFacts.
Import pystr.

Variable cwd : string.
Hypothesis cwd_absolute : startswith "/" cwd = true.

Variable start_path : string.
Hypothesis start_nonempty : start_path <> "".

Let plain := fun n => plain_name n = true.

Lemma join_all_snoc (a : string) (names : list string) (n : string) :
  posixpath.join (posixpath.join_all a names) n
  = posixpath.join_all a (names ++ [n]).
Proof. unfold posixpath.join_all. now rewrite fold_left_app. Qed.

Lemma prepend_nil fs : map (prepend []) fs = fs.
Proof.
  rewrite <- (map_id fs) at 2. apply map_ext. now intros [names st].
Qed.

Lemma bundle_one_handle (prefix : list string) (filename : string)
    (st : file_state) (s : io) :
  Forall plain prefix -> plain_name filename = true ->
  bundle_one cwd start_path (posixpath.join_all start_path prefix)
    (filename, st) s
  = handle_file start_path ((prefix ++ [filename])%list, st) s.
Proof.
  intros Hp Hf. unfold bundle_one, handle_file. rewrite join_all_snoc.
  unfold bind at 1. unfold lift.
  rewrite PathFacts.relpath_descend; auto.
  - now destruct prefix.
  - apply Forall_app. split; [exact Hp | now constructor].
Qed.

Lemma filenames_plain (es : list (string * node)) :
  all_names_entries plain_name es = true ->
  Forall (fun f => plain_name (fst f) = true) (filenames es).
Proof.
  induction es as [|[name [st|b es']] es IH]; simpl; intros H.
  - constructor.
  - apply andb_true_iff in H as [H H2]. apply andb_true_iff in H as [H1 _].
    constructor; auto.
  - apply andb_true_iff in H as [_ H2]. auto.
Qed.

Lemma for_each_files_handle (prefix : list string)
    (files : list (string * file_state)) :
  Forall plain prefix ->
  Forall (fun f => plain_name (fst f) = true) files ->
  forall s,
    for_each files
      (bundle_one cwd start_path (posixpath.join_all start_path prefix)) s
    = for_each (map (fun f => ((prefix ++ [fst f])%list, snd f)) files)
        (handle_file start_path) s.
Proof.
  intros Hp. induction 1 as [|[name st] files Hn Hfiles IH]; intros s.
  - reflexivity.
  - cbn [for_each map fst snd]. unfold bind.
    rewrite bundle_one_handle by assumption.
    destruct (handle_file start_path _ s) as [[[]|e] s1];
      [apply IH | reflexivity].
Qed.

Lemma files_effect_app fs1 fs2 s :
  files_effect start_path (fs1 ++ fs2)%list s
  = files_effect start_path fs2 (files_effect start_path fs1 s).
Proof. apply fold_left_app. Qed.

Lemma prepend_under (prefix : list string) (name : string) fs :
  map (prepend prefix) (map (under name) fs)
  = map (prepend (prefix ++ [name])%list) fs.
Proof.
  rewrite map_map. apply map_ext. intros [names st].
  unfold prepend, under; simpl. now rewrite <- List.app_assoc.
Qed.

(** The traversal of a subtree runs the loop body on its files, in the
    order they are met, each with the names leading to it. *)
Lemma bundle_loop_handle (n : node) :
  forall prefix s,
    all_names plain_name n = true ->
    Forall plain prefix ->
    bundle_loop cwd start_path
      (walk (posixpath.join_all start_path prefix) n) s
    = for_each (map (prepend prefix) (visited_files n))
        (handle_file start_path) s.
Proof.
  induction n as [st|b es IH] using node_induction;
    intros prefix s Hnames Hprefix.
  - reflexivity.
  - destruct b; [|reflexivity].
    rewrite all_names_dir in Hnames.
    rewrite walk_dir, visited_dir, bundle_loop_cons, map_app, for_each_app,
      map_map.
    unfold bind.
    rewrite for_each_files_handle by auto using filenames_plain.
    change (fun x : string * file_state => prepend prefix ([fst x], snd x))
      with (fun f : string * file_state => ((prefix ++ [fst f])%list, snd f)).
    destruct (for_each _ (handle_file start_path) s) as [[[]|e] s1];
      [|reflexivity].
    clear s. revert Hnames s1.
    induction IH as [|[name child] es Hchild _ IHes]; intros Hnames s.
    + reflexivity.
    + cbn [all_names_entries] in Hnames.
      apply andb_true_iff in Hnames as [Hn Hes].
      apply andb_true_iff in Hn as [Hname Hc].
      destruct child as [st|b' es'].
      * cbn [walk_entries visited_entries]. now apply IHes.
      * cbn [walk_entries visited_entries].
        rewrite bundle_loop_app, map_app, for_each_app, prepend_under.
        unfold bind. rewrite join_all_snoc.
        cbn [snd] in Hchild. rewrite Hchild; auto.
        -- destruct (for_each _ (handle_file start_path) s) as [[[]|e] s1];
             [now apply IHes | reflexivity].
        -- apply Forall_app. split; [exact Hprefix | now constructor].
Qed.

(** When everything it has to write or print can be encoded, the loop
    body returns normally and has the effect of [file_effect]. *)
Lemma handle_file_effect (f : list string * file_state) (s : io) :
  entry_encodable start_path f = true ->
  handle_file start_path f s = (Ok tt, file_effect start_path f s).
Proof.
  destruct f as [names st]. unfold entry_encodable. cbn [fst snd].
  intros H. apply andb_true_iff in H as [Hnames Hst].
  pose proof (Utf8Facts.valid_header _
                (Utf8Facts.valid_join_names names Hnames)) as Hheader.
  unfold handle_file, file_effect, try_except, bind. cbn [fst snd].
  destruct st as [cause|cause|content]; cbn [open_r read raise ret].
  - apply andb_true_iff in Hst as [Hstart Hcause].
    apply print_valid, Utf8Facts.valid_diagnostic; [|exact Hcause].
    now apply Utf8Facts.valid_join_all.
  - apply andb_true_iff in Hst as [Hstart Hcause].
    rewrite (write_valid _ s Hheader).
    rewrite print_valid; [reflexivity|].
    apply Utf8Facts.valid_diagnostic; [|exact Hcause].
    now apply Utf8Facts.valid_join_all.
  - rewrite (write_valid _ s Hheader), (write_valid content _ Hst).
    rewrite (write_valid separator _ Utf8Facts.valid_separator).
    cbn [outfile stdout]. now rewrite !StrFacts.app_assoc.
Qed.

Lemma run_files_effect (fs : list (list string * file_state)) :
  Forall (fun f => entry_encodable start_path f = true) fs ->
  forall s,
    for_each fs (handle_file start_path) s
    = (Ok tt, files_effect start_path fs s).
Proof.
  induction 1 as [|f fs Hf _ IH]; intros s; [reflexivity|].
  cbn [for_each]. unfold bind. rewrite (handle_file_effect f s Hf).
  apply IH.
Qed.

(** Whatever can or cannot be encoded, the loop body leaves in the output
    the items of [file_items], and returns normally exactly when the loop
    goes on. *)
Lemma handle_file_items (f : list string * file_state) (s : io) :
  fst (handle_file start_path f s)
  = (if snd (file_items start_path f) then Ok tt
     else Raised utf8.encode_error)
  /\ outfile (snd (handle_file start_path f s))
     = outfile s ++ render (fst (file_items start_path f)).
Proof.
  destruct f as [names st].
  unfold handle_file, file_items, try_except, bind, write, print.
  cbn [fst snd].
  assert (Hsep : utf8.valid separator = true) by reflexivity.
  destruct st as [cause|cause|content]; cbn [open_r read raise ret].
  - destruct (utf8.valid (_ ++ _ ++ _ ++ cause)); cbn [fst snd outfile render];
      now rewrite StrFacts.app_nil_r.
  - destruct (utf8.valid (header _)).
    + destruct (utf8.valid (_ ++ _ ++ _ ++ cause));
        cbn [fst snd outfile render render_item];
        now rewrite StrFacts.app_nil_r.
    + destruct (utf8.valid (_ ++ _ ++ _ ++ utf8.encode_error));
        cbn [fst snd outfile render]; now rewrite StrFacts.app_nil_r.
  - destruct (utf8.valid (header _)).
    + cbn [outfile stdout]. destruct (utf8.valid content).
      * cbn [outfile stdout]. rewrite Hsep.
        cbn [fst snd outfile render render_item].
        now rewrite StrFacts.app_nil_r, !StrFacts.app_assoc.
      * destruct (utf8.valid (_ ++ _ ++ _ ++ utf8.encode_error));
          cbn [fst snd outfile render render_item];
          now rewrite StrFacts.app_nil_r.
    + destruct (utf8.valid (_ ++ _ ++ _ ++ utf8.encode_error));
        cbn [fst snd outfile render]; now rewrite StrFacts.app_nil_r.
Qed.

Lemma run_files_items (fs : list (list string * file_state)) :
  forall s,
    outfile (snd (for_each fs (handle_file start_path) s))
    = outfile s ++ render (written_items start_path fs).
Proof.
  induction fs as [|f fs IH]; intros s.
  - cbn. now rewrite StrFacts.app_nil_r.
  - cbn [for_each written_items]. unfold bind.
    destruct (handle_file_items f s) as [Hr Hout].
    destruct (handle_file start_path f s) as [r s1]. cbn [fst snd] in Hr, Hout.
    rewrite BundleFacts.render_app.
    destruct (snd (file_items start_path f)); subst r.
    + rewrite IH, Hout. now rewrite StrFacts.app_assoc.
    + cbn [snd render]. rewrite Hout. now rewrite StrFacts.app_nil_r.
Qed.

Lemma file_items_encodable (f : list string * file_state) :
  entry_encodable start_path f = true ->
  file_items start_path f = (item_of f, true).
Proof.
  destruct f as [names st]. unfold entry_encodable. cbn [fst snd].
  intros H. apply andb_true_iff in H as [Hnames Hst].
  pose proof (Utf8Facts.valid_header _
                (Utf8Facts.valid_join_names names Hnames)) as Hheader.
  unfold file_items, item_of. cbn [fst snd].
  destruct st as [cause|cause|content].
  - apply andb_true_iff in Hst as [Hstart Hcause].
    rewrite Utf8Facts.valid_diagnostic; auto.
    now apply Utf8Facts.valid_join_all.
  - apply andb_true_iff in Hst as [Hstart Hcause].
    rewrite Hheader, Utf8Facts.valid_diagnostic; auto.
    now apply Utf8Facts.valid_join_all.
  - now rewrite Hheader, Hst.
Qed.

(** When everything can be encoded, every file leaves its item. *)
Lemma written_items_encodable (fs : list (list string * file_state)) :
  Forall (fun f => entry_encodable start_path f = true) fs ->
  written_items start_path fs = flat_map item_of fs.
Proof.
  induction 1 as [|f fs Hf _ IH]; [reflexivity|].
  cbn [written_items flat_map].
  now rewrite (file_items_encodable f Hf), IH.
Qed.

(** The traversal of a tree does to the state what its files, in the
    order they are met, do one after the other. *)
Lemma bundle_loop_effect (n : node) (s : io) :
  all_names plain_name n = true ->
  Forall (fun f => entry_encodable start_path f = true) (visited_files n) ->
  bundle_loop cwd start_path (walk start_path n) s
  = (Ok tt, files_effect start_path (visited_files n) s).
Proof.
  intros Hnames Henc.
  change start_path with (posixpath.join_all start_path []) at 2.
  rewrite bundle_loop_handle by (auto; constructor).
  rewrite prepend_nil. now apply run_files_effect.
Qed.

Lemma outfile_files_effect fs :
  forall s,
    outfile (files_effect start_path fs s)
    = outfile s ++ render (flat_map item_of fs).
Proof.
  induction fs as [|[names st] fs IH]; intros s.
  - simpl. now rewrite StrFacts.app_nil_r.
  - change (files_effect start_path ((names, st) :: fs) s)
      with (files_effect start_path fs
              (file_effect start_path (names, st) s)).
    rewrite IH. unfold file_effect, item_of; cbn [fst snd].
    destruct st; cbn [outfile flat_map app render render_item fst snd].
    + reflexivity.
    + now rewrite !StrFacts.app_assoc.
    + now rewrite !StrFacts.app_assoc.
Qed.

Lemma stdout_files_effect fs :
  forall s,
    stdout (files_effect start_path fs s)
    = (stdout s ++ flat_map (diagnostic_of start_path) fs)%list.
Proof.
  induction fs as [|[names st] fs IH]; intros s.
  - simpl. now rewrite List.app_nil_r.
  - change (files_effect start_path ((names, st) :: fs) s)
      with (files_effect start_path fs
              (file_effect start_path (names, st) s)).
    rewrite IH. unfold file_effect, diagnostic_of; cbn [fst snd].
    destruct st; cbn [stdout flat_map app fst snd];
      rewrite <- ?List.app_assoc, ?List.app_nil_r; reflexivity.
Qed.

Lemma visited_reachable (n : node) :
  Permutation (visited_files n) (reachable_files n).
Proof.
  induction n as [st|b es IH] using node_induction; [reflexivity|].
  destruct b; [|reflexivity].
  rewrite visited_dir, reachable_dir.
  induction IH as [|[name child] es Hchild _ IHes]; [reflexivity|].
  destruct child as [st|b' es'].
  - cbn [filenames map visited_entries reachable_entries fst snd app].
    now apply perm_skip.
  - cbn [filenames visited_entries reachable_entries].
    rewrite Permutation_app_swap_app.
    apply Permutation_app; [|exact IHes].
    apply Permutation_map. exact Hchild.
Qed.

Lemma reachable_names_plain (n : node) :
  all_names plain_name n = true ->
  Forall (fun f => fst f <> [] /\ Forall plain (fst f)) (reachable_files n).
Proof.
  induction n as [st|b es IH] using node_induction; intros Hnames.
  - constructor.
  - destruct b; [|constructor].
    rewrite all_names_dir in Hnames. rewrite reachable_dir.
    induction IH as [|[name child] es Hchild _ IHes]; [constructor|].
    cbn [all_names_entries] in Hnames.
    apply andb_true_iff in Hnames as [Hn Hes].
    apply andb_true_iff in Hn as [Hname Hc].
    destruct child as [st|b' es']; cbn [reachable_entries].
    + constructor; [|now apply IHes].
      split; [discriminate | now repeat constructor].
    + apply Forall_app. split; [|now apply IHes].
      apply Forall_map. eapply Forall_impl; [|exact (Hchild Hc)].
      intros [names st] [_ Hplain]. unfold under; cbn [fst snd].
      split; [discriminate | now constructor].
Qed.

Lemma safe_path_join (names : list string) :
  safe_path names = true -> contains LF (pystr.join "/" names) = false.
Proof.
  unfold safe_path, pystr.join.
  induction names as [|x names IH]; [reflexivity|].
  cbn [forallb]. intros H. apply andb_true_iff in H as [Hx Hn].
  apply negb_true_iff in Hx.
  destruct names as [|y names]; [exact Hx|].
  rewrite StrFacts.concat_cons by discriminate.
  rewrite !StrFacts.contains_app, Hx, (IH Hn). reflexivity.
Qed.

Lemma item_ok_of_safe (f : list string * file_state) :
  safe_file f = true -> Forall item_ok (item_of f).
Proof.
  destruct f as [names st]. unfold safe_file, item_of; cbn [fst snd].
  intros H. apply andb_true_iff in H as [Hp Hc].
  apply safe_path_join in Hp.
  destruct st as [e|e|c]; repeat constructor; cbn [fst snd]; auto.
  - discriminate.
  - intros c' E. injection E as <-. exact Hc.
Qed.

Lemma items_ok_of_safe (fs : list (list string * file_state)) :
  Forall (fun f => safe_file f = true) fs ->
  Forall item_ok (flat_map item_of fs).
Proof.
  intros H. apply Forall_flat_map.
  eapply Forall_impl; [|exact H]. intros f. apply item_ok_of_safe.
Qed.

Lemma parsed_items_all_text (fs : list (list string * file_state)) :
  Forall (fun f => is_text (snd f) = true) fs ->
  map parsed_item (flat_map item_of fs) = text_pairs fs.
Proof.
  unfold text_pairs.
  induction 1 as [|[names st] fs Hst _ IH]; [reflexivity|].
  destruct st; try discriminate. cbn. now rewrite IH.
Qed.

Lemma text_pairs_length (fs : list (list string * file_state)) :
  Forall (fun f => is_text (snd f) = true) fs ->
  List.length (text_pairs fs) = List.length fs.
Proof.
  unfold text_pairs.
  induction 1 as [|[names st] fs Hst _ IH]; [reflexivity|].
  destruct st; try discriminate. cbn. now rewrite IH.
Qed.

Lemma visited_encodable (n : node) :
  Forall (fun f => entry_encodable start_path f = true) (reachable_files n) ->
  Forall (fun f => entry_encodable start_path f = true) (visited_files n).
Proof.
  intros H. eapply Permutation_Forall; [|exact H].
  symmetry. apply visited_reachable.
Qed.

(** What a run of [bundle_files] returns and leaves in the output file,
    over a tree with plain names in which everything the run has to write
    or print can be encoded. *)
Lemma bundle_files_output (output_file : string) (w : world) (n : node) :
  fs_source w = Some n ->
  all_names plain_name n = true ->
  Forall (fun f => entry_encodable start_path f = true) (reachable_files n) ->
  fst (bundle_files cwd start_path output_file w) = Ok tt /\
  fs_output (snd (bundle_files cwd start_path output_file w))
  = Some (render (flat_map item_of (visited_files n))).
Proof.
  intros Hsrc Hnames Henc. rewrite bundle_files_frame.
  unfold os_walk. rewrite Hsrc. cbn [fst snd fs_output].
  rewrite bundle_loop_effect by auto using visited_encodable.
  cbn [fst snd]. rewrite outfile_files_effect. auto.
Qed.

(** Such a run prints one line for each file that could not be opened or
    read, naming its path and the cause, and nothing else. *)
Lemma bundle_files_console (output_file : string) (w : world) (n : node) :
  fs_source w = Some n ->
  all_names plain_name n = true ->
  Forall (fun f => entry_encodable start_path f = true) (reachable_files n) ->
  console (snd (bundle_files cwd start_path output_file w))
  = (console w ++ flat_map (diagnostic_of start_path) (visited_files n))%list.
Proof.
  intros Hsrc Hnames Henc. rewrite bundle_files_frame.
  unfold os_walk. rewrite Hsrc. cbn [fst snd console].
  rewrite bundle_loop_effect by auto using visited_encodable.
  cbn [fst snd]. now rewrite stdout_files_effect.
Qed.

Lemma written_items_paths (fs : list (list string * file_state)) :
  Forall (fun f => safe_path (fst f) = true) fs ->
  Forall (fun it : item => contains LF (fst it) = false)
    (written_items start_path fs).
Proof.
  induction 1 as [|[names st] fs Hp _ IH]; [constructor|].
  cbn [fst] in Hp. apply safe_path_join in Hp.
  cbn [written_items]. apply Forall_app. split.
  - unfold file_items. cbn [fst snd].
    destruct st as [cause|cause|content];
      repeat match goal with
             | |- context [if ?b then _ else _] => destruct b
             end; cbn [fst]; repeat constructor; exact Hp.
  - destruct (snd _); [exact IH | constructor].
Qed.

Lemma item_paths_of_safe (fs : list (list string * file_state)) :
  Forall (fun f => safe_path (fst f) = true) fs ->
  Forall (fun it : item => contains LF (fst it) = false)
    (flat_map item_of fs).
Proof.
  intros H. apply Forall_flat_map.
  eapply Forall_impl; [|exact H]. intros [names st] Hp. cbn [fst] in Hp.
  apply safe_path_join in Hp. unfold item_of; cbn [fst snd].
  destruct st; repeat constructor; exact Hp.
Qed.

(** What a run over a tree with plain names leaves in the output file,
    whatever can or cannot be encoded. *)
Lemma bundle_files_written (output_file : string) (w : world) (n : node) :
  fs_source w = Some n ->
  all_names plain_name n = true ->
  fs_output (snd (bundle_files cwd start_path output_file w))
  = Some (render (written_items start_path (visited_files n))).
Proof.
  intros Hsrc Hnames. rewrite bundle_files_frame.
  unfold os_walk. rewrite Hsrc. cbn [snd fs_output]. f_equal.
  change start_path with (posixpath.join_all start_path []) at 2.
  rewrite bundle_loop_handle by (auto; constructor).
  rewrite prepend_nil. apply (run_files_items (visited_files n) io0).
Qed.

(** When everything the run has to write or print can be encoded, every
    readable file is successfully bundled. *)
Lemma encodable_file_is_bundled (n : node) (names : list string)
    (content : string) :
  Forall (fun f => entry_encodable start_path f = true) (reachable_files n) ->
  In (names, Text content) (reachable_files n) ->
  In (pystr.join "/" names, Some content)
    (written_items start_path (visited_files n)).
Proof.
  intros Henc Hin.
  rewrite written_items_encodable by now apply visited_encodable.
  apply in_flat_map. exists (names, Text content). split; [|now left].
  eapply Permutation_in; [symmetry; apply visited_reachable | exact Hin].
Qed.

(** C4, as amended.  A file is successfully bundled when the run writes
    its whole record: header, content and separator.  In a tree no name of
    which contains a newline, every successfully bundled file whose own
    content has no line that begins with [--- ] and ends with [ ---]
    appears in the bundle read back, with its relative path (the names
    leading to it joined by slashes, which is what [relpath] computes for
    it) and its content as [read] returned it: the exact decoded text of
    the file when that has no carriage return.  This holds whatever the
    contents of the other files are, also when other files could not be
    opened, read or written, and also when the run stops after the
    file. *)
Theorem bundled_file_read_back
    (output_file : string) (w : world) (n : node)
    (names : list string) (content : string) :
  fs_source w = Some n ->
  all_names plain_name n = true ->
  In (names, Text content) (reachable_files n) ->
  In (pystr.join "/" names, Some content)
    (written_items start_path (visited_files n)) ->
  Forall (fun f => safe_path (fst f) = true) (reachable_files n) ->
  BundleFormat.header_free content = true ->
  posixpath.relpath cwd (posixpath.join_all start_path names) start_path
    = Ok (pystr.join "/" names)
  /\ exists text,
       fs_output (snd (bundle_files cwd start_path output_file w))
         = Some text
       /\ In (pystr.join "/" names, content)
             (BundleFormat.parse_bundle text)
       /\ (forall raw,
             content = universal_newlines raw ->
             contains CR raw = false ->
             In (pystr.join "/" names, raw)
                (BundleFormat.parse_bundle text)).
Proof.
  intros Hsrc Hnames Hin Hwritten Hpaths Hfree. split.
  - pose proof (reachable_names_plain n Hnames) as Hplain.
    rewrite Forall_forall in Hplain.
    destruct (Hplain _ Hin) as [Hne Hall].
    now apply PathFacts.relpath_descend.
  - eexists. split; [exact (bundle_files_written output_file w n Hsrc Hnames)|].
    assert (Hread : In (pystr.join "/" names, content)
                      (BundleFormat.parse_bundle
                         (render (written_items start_path
                                    (visited_files n))))).
    { assert (Hpaths' : Forall (fun f => safe_path (fst f) = true)
                          (visited_files n))
        by (eapply Permutation_Forall;
            [symmetry; apply visited_reachable | exact Hpaths]).
      apply written_items_paths in Hpaths'.
      apply in_split in Hwritten as (pre & post & Hsplit).
      rewrite Hsplit in Hpaths' |- *.
      now apply BundleFacts.parse_render_member. }
    split; [exact Hread|].
    intros raw Hraw Hcr.
    rewrite <- (universal_newlines_without_cr raw Hcr), <- Hraw.
    exact Hread.
Qed.

(** C2, as amended.  When every file the traversal can reach is opened
    and read, everything the run has to write can be encoded (the names
    and the contents are valid UTF-8), no name contains a newline and no
    content has a line that begins with [--- ] and ends with [ ---], the
    run returns normally and the bundle read back has exactly one record
    per reachable file: its (relative path, content) pairs are those of
    the tree, the content of a file being the text [read] returns for it
    (the exact decoded text of the file when that has no carriage return),
    up to the order in which the files are met. *)
Theorem bundle_read_back_is_tree
    (output_file : string) (w : world) (n : node) :
  fs_source w = Some n ->
  all_names plain_name n = true ->
  Forall (fun f => is_text (snd f) = true) (reachable_files n) ->
  Forall (fun f => entry_encodable start_path f = true) (reachable_files n) ->
  Forall (fun f => safe_file f = true) (reachable_files n) ->
  fst (bundle_files cwd start_path output_file w) = Ok tt
  /\ exists text,
       fs_output (snd (bundle_files cwd start_path output_file w))
         = Some text
       /\ Permutation (BundleFormat.parse_bundle text)
                       (text_pairs (reachable_files n))
       /\ List.length (BundleFormat.parse_bundle text)
          = List.length (reachable_files n)
       /\ (forall names raw,
             In (names, stored raw) (reachable_files n) ->
             contains CR raw = false ->
             In (pystr.join "/" names, raw)
                (BundleFormat.parse_bundle text)).
Proof.
  intros Hsrc Hnames Htext Henc Hsafe.
  destruct (bundle_files_output output_file w n Hsrc Hnames Henc)
    as [Hr Hout].
  split; [exact Hr|]. eexists. split; [exact Hout|].
  pose proof (visited_reachable n) as Hperm.
  assert (Hsafe' : Forall (fun f => safe_file f = true) (visited_files n))
    by (eapply Permutation_Forall; [symmetry; exact Hperm | exact Hsafe]).
  assert (Htext' : Forall (fun f => is_text (snd f) = true)
                     (visited_files n))
    by (eapply Permutation_Forall; [symmetry; exact Hperm | exact Htext]).
  rewrite BundleFacts.parse_render by now apply items_ok_of_safe.
  rewrite parsed_items_all_text by exact Htext'.
  assert (Hpairs : Permutation (text_pairs (visited_files n))
                      (text_pairs (reachable_files n)))
    by (unfold text_pairs; now apply Permutation_flat_map).
  split; [exact Hpairs|]. split.
  - rewrite text_pairs_length by exact Htext'.
    now apply Permutation_length.
  - intros names raw Hin Hcr. unfold stored in Hin.
    rewrite (universal_newlines_without_cr raw Hcr) in Hin.
    eapply Permutation_in; [symmetry; exact Hpairs|].
    unfold text_pairs. apply in_flat_map.
    exists (names, Text raw). split; [exact Hin | now left].
Qed.

End RunFacts.

(** ** Runs of the example trees *)

Section Runs.
Import pystr BundleFormat Examples.

(** The scenario of the documentation: two files, one in a
    subdirectory. *)
Example hello_run :
  main home (world_of hello_tree) =
  (Ok tt,
   mkWorld (Some hello_tree)
     (Some ("--- a.txt ---" ++ nl ++ "hello" ++ nl ++ nl ++
            "--- sub/b.txt ---" ++ nl ++ "world" ++ nl ++ nl ++ nl))
     ["All files from 'src' have been bundled into 'Code_Bundle.txt'"]).
Proof. reflexivity. Qed.

(** A file that cannot be opened leaves the output as it was. *)
Example denied_run :
  run denied_tree =
  (Ok tt,
   mkWorld (Some denied_tree) (Some "")
     ["Could not read file src/secret.txt: [Errno 13] Permission denied: 'src/secret.txt'"]).
Proof. reflexivity. Qed.

(** C1.  A file that is opened but whose content cannot be decoded: the
    loop body has written the header to the output when [read] raises, so
    the output grows by a header with no content and no separator; the
    finished bundle holds that header alone and is not a sequence of whole
    records. *)
Theorem header_written_before_read_fails :
  bundle_one home "src" "src" ("bad.bin", Undecodable decode_error)
    (mkIO "" [])
  = (Ok tt,
     mkIO ("--- bad.bin ---" ++ nl)
          [("Could not read file src/bad.bin: " ++ decode_error)%string])
  /\ fs_output (snd (run garbage_tree)) = Some ("--- bad.bin ---" ++ nl)
  /\ forall recs : list (string * string),
       fs_output (snd (run garbage_tree))
       <> Some (render (map whole_record recs)).
Proof.
  split; [reflexivity|]. split; [reflexivity|].
  intros recs E.
  assert (Eout : "--- bad.bin ---" ++ nl = render (map whole_record recs))
    by (injection E; auto).
  destruct recs as [|r recs]; [discriminate|].
  pose proof (BundleFacts.whole_records_newlines (r :: recs)) as H.
  rewrite <- Eout in H. cbn [List.length] in H.
  change (count LF ("--- bad.bin ---" ++ nl)) with 1 in H. lia.
Qed.

(** C5.  With a file that cannot be decoded next to a readable one, the
    run returns normally, prints the diagnostic naming the file and the
    cause, and writes the record of the readable file; but the failing
    file is in the bundle too, as a header, and reading the bundle back
    gives a record for it. *)
Theorem undecodable_file_in_record_set :
  run bad_tree =
  (Ok tt,
   mkWorld (Some bad_tree)
     (Some ("--- bad.bin ---" ++ nl ++
            "--- ok.txt ---" ++ nl ++ "hi" ++ nl ++ nl))
     [("Could not read file src/bad.bin: " ++ decode_error)%string])
  /\ parse_bundle ("--- bad.bin ---" ++ nl ++
                   "--- ok.txt ---" ++ nl ++ "hi" ++ nl ++ nl)
     = [("bad.bin", ""); ("ok.txt", "hi")].
Proof. split; reflexivity. Qed.

(** C4 fails as stated: a readable file with a line that reads as a
    header is bundled, and reading the bundle back does not give its
    content. *)
Lemma header_like_content_not_read_back :
  In (["a.txt"], Text tricky_content) (reachable_files tricky_tree)
  /\ exists text,
       fs_output (snd (run tricky_tree)) = Some text
       /\ ~ In ("a.txt", tricky_content) (parse_bundle text).
Proof.
  split; [now left|].
  eexists. split; [reflexivity|].
  vm_compute. intros [H|[H|[]]]; discriminate.
Qed.

(** C2 fails as stated: a tree of one decodable file whose bundle reads
    back as two records, one of them for a file the tree does not have;
    the bundle is byte for byte that of a tree of two files. *)
Lemma one_file_read_back_as_two :
  forallb (fun f => is_text (snd f)) (reachable_files tricky_tree) = true
  /\ List.length (reachable_files tricky_tree) = 1
  /\ exists text,
       fs_output (snd (run tricky_tree)) = Some text
       /\ List.length (parse_bundle text) = 2
       /\ In ("b.txt", "y") (parse_bundle text)
       /\ ~ In ("b.txt", "y") (text_pairs (reachable_files tricky_tree))
       /\ fs_output (snd (run split_tree)) = Some text.
Proof.
  split; [reflexivity|]. split; [reflexivity|].
  eexists. split; [reflexivity|].
  split; [reflexivity|]. split; [vm_compute; auto|].
  split; [|reflexivity].
  vm_compute. intros [H|[]]. discriminate.
Qed.

(** A newline in a file name breaks the header line: nothing is read
    back. *)
Example newline_in_name_not_read_back :
  exists text,
    fs_output (snd (run newline_tree)) = Some text
    /\ parse_bundle text = [].
Proof. eexists. split; reflexivity. Qed.

(** The file below a directory that cannot be listed is not written and
    nothing is printed. *)
Example locked_run :
  run locked_tree =
  (Ok tt,
   mkWorld (Some locked_tree)
     (Some ("--- a.txt ---" ++ nl ++ "hello" ++ nl ++ nl)) []).
Proof. reflexivity. Qed.

(** A readable file whose name cannot be encoded gets no record: the
    write of its header raises, the diagnostic cannot be printed either,
    and the exception leaves [bundle_files]; what was written before stays
    in the output file and the files after it are not met. *)
Example latin1_run :
  run latin1_tree =
  (Raised utf8.encode_error, mkWorld (Some latin1_tree) (Some "") [])
  /\ fst (main home (world_of latin1_tree)) = Raised utf8.encode_error.
Proof. split; reflexivity. Qed.

(** A file bundled before the run stops is read back. *)
Example bundled_before_stop :
  run (Dir true [ ("ok.txt", File (Text "hi"));
                  (String "c" (String "233" ""), File (Text "x")) ])
  = (Raised utf8.encode_error,
     mkWorld (Some (Dir true [ ("ok.txt", File (Text "hi"));
                               (String "c" (String "233" ""),
                                File (Text "x")) ]))
       (Some ("--- ok.txt ---" ++ nl ++ "hi" ++ nl ++ nl)) [])
  /\ parse_bundle ("--- ok.txt ---" ++ nl ++ "hi" ++ nl ++ nl)
     = [("ok.txt", "hi")].
Proof. split; reflexivity. Qed.

(** Carriage returns are not kept: the bundle holds the text as [read]
    returns it. *)
Example crlf_run :
  fs_output (snd (run crlf_tree))
  = Some ("--- w.txt ---" ++ nl ++ ("a" ++ nl ++ "b" ++ nl ++ "c")
          ++ nl ++ nl).
Proof. reflexivity. Qed.

(** *** Instances of the theorems above *)

Lemma missing_source_witness :
  isdir (mkWorld None (Some "old bundle") []) = false
  /\ main home (mkWorld None (Some "old bundle") []) =
     (Ok tt,
      mkWorld None (Some "old bundle")
        ["Error: The directory 'src' does not exist."])
  /\ fs_output (snd (main home (mkWorld None (Some "old bundle") [])))
     = Some "old bundle".
Proof.
  split; [reflexivity|].
  apply (missing_source_reports_and_leaves_output home
           (mkWorld None (Some "old bundle") [])).
  reflexivity.
Defined.

Lemma record_appended_witness :
  posixpath.relpath home (posixpath.join "src/sub" "b.txt") "src"
    = Ok "sub/b.txt"
  /\ bundle_one home "src" "src/sub" ("b.txt", Text ("world" ++ nl))
       (mkIO "" [])
     = (Ok tt,
        mkIO ("" ++ "--- " ++ "sub/b.txt" ++ " ---" ++ nl
              ++ ("world" ++ nl) ++ nl ++ nl) []).
Proof.
  split; [reflexivity|].
  apply (record_appended_for_readable_file home "src" "src/sub" "b.txt"
           ("world" ++ nl) "sub/b.txt" (mkIO "" [])); reflexivity.
Defined.

Lemma second_run_witness :
  exists text,
    fs_output (snd (main home (world_of hello_tree))) = Some text
    /\ fs_output (snd (main home (snd (main home (world_of hello_tree)))))
       = Some text
    /\ fs_output (snd (main home
                         (mkWorld (Some hello_tree) (Some "stale") ["x"])))
       = Some text.
Proof.
  destruct (second_run_same_output home (world_of hello_tree)
              (mkWorld (Some hello_tree) (Some "stale") ["x"]))
    as (_ & _ & H).
  destruct (H eq_refl) as (text & H1 & H2 & H3).
  destruct (H3 eq_refl) as [H4 _].
  exists text. auto.
Defined.

Lemma output_independent_witness :
  isdir (world_of hello_tree) = true
  /\ fs_output (snd (main home
                       (mkWorld (Some hello_tree) (Some "stale") ["x"])))
     = fs_output (snd (main home (world_of hello_tree))).
Proof.
  split; [reflexivity|].
  apply (output_independent_of_prior_content home (world_of hello_tree)
           (Some "stale") ["x"]).
  reflexivity.
Defined.


Lemma bundled_file_read_back_witness :
  posixpath.relpath home (posixpath.join_all "src" ["ok.txt"]) "src"
    = Ok (pystr.join "/" ["ok.txt"])
  /\ exists text,
       fs_output (snd (run bad_tree)) = Some text
       /\ In (pystr.join "/" ["ok.txt"], "hi") (parse_bundle text)
       /\ (forall raw,
             "hi" = universal_newlines raw ->
             contains CR raw = false ->
             In (pystr.join "/" ["ok.txt"], raw) (parse_bundle text)).
Proof.
  apply (bundled_file_read_back home eq_refl "src"
           ltac:(discriminate) "Code_Bundle.txt" (world_of bad_tree)
           bad_tree ["ok.txt"] "hi").
  - reflexivity.
  - reflexivity.
  - simpl. auto.
  - simpl. auto.
  - repeat constructor.
  - reflexivity.
Defined.

Lemma bundle_read_back_is_tree_witness :
  fst (run hello_tree) = Ok tt
  /\ exists text,
       fs_output (snd (run hello_tree)) = Some text
       /\ Permutation (parse_bundle text)
                       (text_pairs (reachable_files hello_tree))
       /\ List.length (parse_bundle text)
          = List.length (reachable_files hello_tree)
       /\ (forall names raw,
             In (names, stored raw) (reachable_files hello_tree) ->
             contains CR raw = false ->
             In (pystr.join "/" names, raw) (parse_bundle text)).
Proof.
  apply (bundle_read_back_is_tree home eq_refl "src"
           ltac:(discriminate) "Code_Bundle.txt" (world_of hello_tree)
           hello_tree).
  - reflexivity.
  - reflexivity.
  - repeat constructor.
  - repeat constructor.
  - repeat constructor.
Defined.

End Runs.

(** * Further properties of the run *)

Section Coverage.
Import pystr.

Variable cwd : string.
Hypothesis cwd_absolute : startswith "/" cwd = true.

Variable start_path : string.
Hypothesis start_nonempty : start_path <> "".

(** X1.  Over a tree whose names are plain and in which everything the
    run has to write or print can be encoded, [bundle_files] returns
    normally and the output file holds, one after the other and in the
    order of the traversal (the files of a directory in listing order, then
    its subdirectories in listing order), a whole record for each file
    read, a header alone for each file opened but not read, and nothing
    for a file that could not be opened.  The files met are the files
    below directories that can be listed, each exactly once. *)
Theorem bundle_is_records_in_traversal_order
    (output_file : string) (w : world) (n : node) :
  fs_source w = Some n ->
  all_names plain_name n = true ->
  Forall (fun f => entry_encodable start_path f = true) (reachable_files n) ->
  fst (bundle_files cwd start_path output_file w) = Ok tt
  /\ fs_output (snd (bundle_files cwd start_path output_file w))
     = Some (render (flat_map item_of (visited_files n)))
  /\ Permutation (visited_files n) (reachable_files n).
Proof.
  intros Hsrc Hnames Henc.
  destruct (bundle_files_output cwd cwd_absolute start_path start_nonempty
              output_file w n Hsrc Hnames Henc) as [Hr Hout].
  repeat split; try assumption.
  apply visited_reachable.
Qed.

(** *** The relative path and the file path *)

Lemma join_relative (names : list string) :
  names <> [] ->
  Forall (fun x => plain_name x = true) names ->
  posixpath.join start_path (pystr.join "/" names)
  = posixpath.join_all start_path names.
Proof.
  intros Hne Hall. destruct names as [|a p]; [congruence|]. clear Hne.
  inversion Hall as [|? ? Ha Hp]; subst.
  pose proof (PathFacts.plain_name_spec a Ha) as (Ha1 & Ha2 & _).
  assert (Hja : posixpath.join start_path a <> "")
    by now apply PathFacts.join_plain_nonempty.
  assert (Hje : endswith "/" (posixpath.join start_path a) = false).
  { rewrite (PathFacts.join_plain start_path a start_nonempty Ha).
    destruct (endswith "/" start_path).
    - rewrite StrFacts.endswith_app_nonempty by (auto; simpl; lia).
      now apply PathFacts.no_slash_endswith.
    - rewrite <- StrFacts.app_assoc.
      rewrite StrFacts.endswith_app_nonempty by (auto; simpl; lia).
      now apply PathFacts.no_slash_endswith. }
  change (posixpath.join_all start_path (a :: p))
    with (posixpath.join_all (posixpath.join start_path a) p).
  rewrite (PathFacts.join_all_concat p _ Hja Hje Hp).
  assert (Hrel : startswith "/" (pystr.join "/" (a :: p)) = false).
  { unfold pystr.join. destruct p as [|b p].
    - now apply PathFacts.no_slash_startswith.
    - rewrite StrFacts.concat_cons by discriminate.
      rewrite PathFacts.startswith_slash_app by exact Ha1.
      now apply PathFacts.no_slash_startswith. }
  unfold posixpath.join at 1. rewrite Hrel.
  rewrite (PathFacts.eqb_empty_false start_path start_nonempty).
  cbn [orb].
  rewrite (PathFacts.join_plain start_path a start_nonempty Ha).
  unfold pystr.join. destruct p as [|b p].
  - reflexivity.
  - rewrite !(StrFacts.concat_cons "/" _ (b :: p)) by discriminate.
    destruct (endswith "/" start_path); now rewrite !StrFacts.app_assoc.
Qed.

(** X4.  For every file the traversal reaches, [relpath] does not raise,
    the relative path it returns is the names leading to the file joined by
    slashes (so it has no [..] and does not depend on the current
    directory), and joining the start path with it gives back the file
    path the loop opens and names in its diagnostics. *)
Theorem relative_path_locates_file
    (n : node) (names : list string) (st : file_state) :
  all_names plain_name n = true ->
  In (names, st) (reachable_files n) ->
  posixpath.relpath cwd (posixpath.join_all start_path names) start_path
    = Ok (pystr.join "/" names)
  /\ posixpath.join start_path (pystr.join "/" names)
     = posixpath.join_all start_path names.
Proof.
  intros Hnames Hin.
  pose proof (reachable_names_plain n Hnames) as Hplain.
  rewrite Forall_forall in Hplain.
  destruct (Hplain _ Hin) as [Hne Hall]. cbn [fst] in Hne, Hall.
  split.
  - now apply PathFacts.relpath_descend.
  - now apply join_relative.
Qed.

(** *** Trees in which every opened file is read *)

Lemma items_without_undecodable (fs : list (list string * file_state)) :
  Forall (fun f => is_undecodable (snd f) = false) fs ->
  flat_map item_of fs = map whole_record (text_pairs fs).
Proof.
  unfold text_pairs.
  induction 1 as [|[names st] fs Hst _ IH]; [reflexivity|].
  destruct st; try discriminate; cbn; now rewrite IH.
Qed.

(** X7.  When everything the run has to write or print can be encoded
    and no file the traversal reaches fails in [read] after it was opened,
    the output file is a sequence of whole records (header, content, two
    newlines), one for each file read and in the order of the traversal,
    also when some files could not be opened. *)
Theorem bundle_is_whole_records
    (output_file : string) (w : world) (n : node) :
  fs_source w = Some n ->
  all_names plain_name n = true ->
  Forall (fun f => entry_encodable start_path f = true) (reachable_files n) ->
  Forall (fun f => is_undecodable (snd f) = false) (reachable_files n) ->
  fs_output (snd (bundle_files cwd start_path output_file w))
  = Some (render (map whole_record (text_pairs (visited_files n)))).
Proof.
  intros Hsrc Hnames Henc Hread.
  destruct (bundle_files_output cwd cwd_absolute start_path start_nonempty
              output_file w n Hsrc Hnames Henc) as [_ Hout].
  rewrite Hout, items_without_undecodable; [reflexivity|].
  eapply Permutation_Forall; [|exact Hread].
  symmetry. apply visited_reachable.
Qed.

End Coverage.

Section CoverageFormat.
Import pystr.

Lemma parsed_whole_records (recs : list (string * string)) :
  map parsed_item (map whole_record recs) = recs.
Proof.
  rewrite map_map. rewrite <- (map_id recs) at 2.
  apply map_ext. now intros [p c].
Qed.

(** X8.  The record format is unambiguous on records whose paths have no
    newline and whose contents have no line that begins with [--- ] and
    ends with [ ---]: two lists of such records written as header, content
    and two newlines each give the same bytes only if they are the same
    list. *)
Theorem whole_records_determined_by_bytes
    (recs1 recs2 : list (string * string)) :
  Forall item_ok (map whole_record recs1) ->
  Forall item_ok (map whole_record recs2) ->
  render (map whole_record recs1) = render (map whole_record recs2) ->
  recs1 = recs2.
Proof.
  intros H1 H2 E.
  apply (f_equal BundleFormat.parse_bundle) in E.
  rewrite !BundleFacts.parse_render in E by assumption.
  now rewrite !parsed_whole_records in E.
Qed.

End CoverageFormat.

Section CoverageRuns.
Import pystr.

(** X3.  Two runs over the same tree give the same output file content
    whatever the current directories and the spellings of the start path
    are, as long as everything each run has to write or print can be
    encoded. *)
Theorem bundle_bytes_independent_of_start_and_cwd
    (cwd1 cwd2 start1 start2 output_file : string) (w1 w2 : world)
    (n : node) :
  startswith "/" cwd1 = true -> startswith "/" cwd2 = true ->
  start1 <> "" -> start2 <> "" ->
  fs_source w1 = Some n -> fs_source w2 = Some n ->
  all_names plain_name n = true ->
  Forall (fun f => entry_encodable start1 f = true) (reachable_files n) ->
  Forall (fun f => entry_encodable start2 f = true) (reachable_files n) ->
  fs_output (snd (bundle_files cwd1 start1 output_file w1))
  = fs_output (snd (bundle_files cwd2 start2 output_file w2)).
Proof.
  intros Hc1 Hc2 Hs1 Hs2 Hw1 Hw2 Hnames He1 He2.
  destruct (bundle_files_output cwd1 Hc1 start1 Hs1 output_file w1 n
              Hw1 Hnames He1) as [_ ->].
  destruct (bundle_files_output cwd2 Hc2 start2 Hs2 output_file w2 n
              Hw2 Hnames He2) as [_ ->].
  reflexivity.
Qed.

(** X2.  When the source directory exists and everything the run has to
    write or print can be encoded, the entry point returns normally and
    prints one line for each file that could not be opened or read, in the
    order of the traversal and naming the file path and the cause, then
    the success line: success is reported also when files were skipped.
    The output file is the one [bundle_files] leaves. *)
Theorem main_reports_skips_then_success
    (cwd : string) (w : world) (n : node) :
  startswith "/" cwd = true ->
  fs_source w = Some n ->
  is_dir n = true ->
  all_names plain_name n = true ->
  Forall (fun f => entry_encodable "src" f = true) (reachable_files n) ->
  fst (main cwd w) = Ok tt
  /\ console (snd (main cwd w))
     = (console w
        ++ flat_map (diagnostic_of "src") (visited_files n)
        ++ ["All files from 'src' have been bundled into 'Code_Bundle.txt'"])%list
  /\ fs_output (snd (main cwd w))
     = fs_output (snd (bundle_files cwd "src" "Code_Bundle.txt" w)).
Proof.
  intros Hcwd Hsrc Hdir Hnames Henc.
  assert (Hstart : source_directory <> "") by discriminate.
  destruct (bundle_files_output cwd Hcwd source_directory Hstart
              output_filename w n Hsrc Hnames Henc) as [Hr Hout].
  pose proof (bundle_files_console cwd Hcwd source_directory Hstart
                output_filename w n Hsrc Hnames Henc) as Hcon.
  assert (Hisdir : isdir w = true) by (unfold isdir; now rewrite Hsrc).
  unfold main. rewrite Hisdir.
  change "src" with source_directory.
  change "Code_Bundle.txt" with output_filename.
  destruct (bundle_files cwd source_directory output_filename w)
    as [r w'] eqn:E.
  cbn [fst snd] in Hr, Hout, Hcon. subst r.
  cbn [fst snd print_line console fs_output].
  rewrite Hcon, <- List.app_assoc. auto.
Qed.

(** *** A tree without files *)

Lemma reachable_entries_nil_filenames (es : list (string * node)) :
  reachable_entries es = [] -> filenames es = [].
Proof.
  induction es as [|[name [st|b es']] es IH]; simpl; intros H.
  - reflexivity.
  - discriminate.
  - apply app_eq_nil in H as [_ H]. auto.
Qed.

Lemma bundle_loop_no_files (cwd start_path : string) (n : node) :
  reachable_files n = [] ->
  forall top s, bundle_loop cwd start_path (walk top n) s = (Ok tt, s).
Proof.
  induction n as [st|b es IH] using node_induction; intros Hnone top s.
  - reflexivity.
  - destruct b; [|reflexivity].
    rewrite reachable_dir in Hnone.
    rewrite walk_dir, bundle_loop_cons,
      (reachable_entries_nil_filenames es Hnone).
    unfold bind. cbn [for_each ret].
    revert Hnone s.
    induction IH as [|[name child] es Hchild _ IHes]; intros Hnone s.
    + reflexivity.
    + destruct child as [st|b' es']; [discriminate|].
      cbn [reachable_entries] in Hnone.
      apply app_eq_nil in Hnone as [Hc Hes].
      apply map_eq_nil in Hc.
      cbn [walk_entries]. rewrite bundle_loop_app. unfold bind.
      cbn [snd] in Hchild. rewrite (Hchild Hc). now apply IHes.
Qed.

(** X6.  Over a tree in which the traversal reaches no file (an empty
    directory, or directories only), whatever its names are,
    [bundle_files] returns normally, leaves an empty output file and
    prints nothing; the entry point then prints the success line alone. *)
Theorem no_files_empty_bundle
    (cwd start_path output_file : string) (w : world) (n : node) :
  fs_source w = Some n ->
  reachable_files n = [] ->
  bundle_files cwd start_path output_file w
  = (Ok tt, mkWorld (Some n) (Some "") (console w))
  /\ (is_dir n = true ->
      main cwd w =
      (Ok tt,
       mkWorld (Some n) (Some "")
         (console w ++
          ["All files from 'src' have been bundled into 'Code_Bundle.txt'"])%list)).
Proof.
  intros Hsrc Hnone.
  assert (Hrun : forall sp out,
             bundle_files cwd sp out w
             = (Ok tt, mkWorld (Some n) (Some "") (console w))).
  { intros sp out. unfold bundle_files, os_walk. rewrite Hsrc.
    now rewrite (bundle_loop_no_files cwd sp n Hnone). }
  split; [apply Hrun|].
  intros Hdir. unfold main, isdir. rewrite Hsrc, Hdir, Hrun. reflexivity.
Qed.

(** *** Files that cannot be opened *)

Lemma drop_unopenable_dir (b : bool) (es : list (string * node)) :
  drop_unopenable (Dir b es) = Dir b (drop_unopenable_entries es).
Proof. reflexivity. Qed.

Lemma filter_under (name : string) (fs : list (list string * file_state)) :
  filter (fun f => openable (snd f)) (map (under name) fs)
  = map (under name) (filter (fun f => openable (snd f)) fs).
Proof.
  induction fs as [|[names st] fs IH]; [reflexivity|].
  cbn [map filter under fst snd]. destruct (openable st); cbn [map];
    now rewrite IH.
Qed.

Lemma filenames_drop (es : list (string * node)) :
  map (fun f => ([fst f], snd f)) (filenames (drop_unopenable_entries es))
  = filter (fun f => openable (snd f))
      (map (fun f : string * file_state => ([fst f], snd f)) (filenames es)).
Proof.
  induction es as [|[name [st|b es']] es IH].
  - reflexivity.
  - cbn [drop_unopenable_entries filenames map filter fst snd].
    destruct (openable st) eqn:E.
    + cbn [filenames map fst snd]. now rewrite IH.
    + exact IH.
  - exact IH.
Qed.

Lemma visited_drop (n : node) :
  visited_files (drop_unopenable n)
  = filter (fun f => openable (snd f)) (visited_files n).
Proof.
  induction n as [st|b es IH] using node_induction; [reflexivity|].
  rewrite drop_unopenable_dir. destruct b; [|reflexivity].
  rewrite !visited_dir, filter_app, filenames_drop. f_equal.
  induction IH as [|[name child] es Hchild _ IHes]; [reflexivity|].
  destruct child as [st|b' es'].
  - cbn [drop_unopenable_entries visited_entries].
    destruct (openable st); exact IHes.
  - cbn [drop_unopenable_entries]. rewrite drop_unopenable_dir.
    cbn [visited_entries]. rewrite <- drop_unopenable_dir.
    cbn [snd] in Hchild.
    now rewrite Hchild, filter_app, filter_under, IHes.
Qed.

Lemma all_names_drop (ok : string -> bool) (n : node) :
  all_names ok n = true -> all_names ok (drop_unopenable n) = true.
Proof.
  induction n as [st|b es IH] using node_induction; [auto|].
  rewrite drop_unopenable_dir, !all_names_dir.
  induction IH as [|[name child] es Hchild _ IHes]; [auto|].
  cbn [all_names_entries]. intros H.
  apply andb_true_iff in H as [H Hes]. apply andb_true_iff in H as [Hn Hc].
  destruct child as [st|b' es'].
  - cbn [drop_unopenable_entries]. destruct (openable st); [|now apply IHes].
    cbn [all_names_entries]. rewrite Hn, Hc, IHes; auto.
  - cbn [drop_unopenable_entries all_names_entries].
    cbn [snd] in Hchild. rewrite Hn, (Hchild Hc), IHes; auto.
Qed.

Lemma items_filter_openable (fs : list (list string * file_state)) :
  flat_map item_of (filter (fun f => openable (snd f)) fs)
  = flat_map item_of fs.
Proof.
  induction fs as [|[names st] fs IH]; [reflexivity|].
  cbn [filter snd]. destruct st; cbn [openable flat_map];
    now rewrite IH.
Qed.

Lemma encodable_drop (start_path : string) (n : node) :
  Forall (fun f => entry_encodable start_path f = true) (reachable_files n) ->
  Forall (fun f => entry_encodable start_path f = true)
    (reachable_files (drop_unopenable n)).
Proof.
  intros H.
  eapply Permutation_Forall; [apply visited_reachable|].
  rewrite visited_drop. apply Forall_forall. intros f Hf.
  apply filter_In in Hf as [Hf _].
  assert (Hvis : Forall (fun f => entry_encodable start_path f = true)
                   (visited_files n))
    by (eapply Permutation_Forall; [symmetry; apply visited_reachable
                                   | exact H]).
  rewrite Forall_forall in Hvis. now apply Hvis.
Qed.

(** X5.  A file that cannot be opened leaves no trace in the bundle: when
    everything the run has to write or print can be encoded (so that the
    diagnostic for the file is printed and the run goes on), the output
    file of a run over a tree is, byte for byte, that of a run over the
    tree without the files that cannot be opened. *)
Theorem unopenable_files_leave_no_trace
    (cwd start_path output_file : string) (n : node)
    (prior : option string) (shown : list string) :
  startswith "/" cwd = true ->
  start_path <> "" ->
  all_names plain_name n = true ->
  Forall (fun f => entry_encodable start_path f = true) (reachable_files n) ->
  fs_output (snd (bundle_files cwd start_path output_file
                    (mkWorld (Some n) prior shown)))
  = fs_output (snd (bundle_files cwd start_path output_file
                      (mkWorld (Some (drop_unopenable n)) prior shown))).
Proof.
  intros Hcwd Hstart Hnames Henc.
  destruct (bundle_files_output cwd Hcwd start_path Hstart output_file
              (mkWorld (Some n) prior shown) n eq_refl Hnames Henc)
    as [_ ->].
  destruct (bundle_files_output cwd Hcwd start_path Hstart output_file
              (mkWorld (Some (drop_unopenable n)) prior shown)
              (drop_unopenable n) eq_refl
              (all_names_drop plain_name n Hnames)
              (encodable_drop start_path n Henc)) as [_ ->].
  now rewrite visited_drop, items_filter_openable.
Qed.

End CoverageRuns.

Section CoverageLoop.
Import pystr Examples.

(** X9.  The loop only appends.  From whatever state it starts, a run of
    the two nested loops returns the same result, leaves the text already
    in the output file and the lines already printed as they are, and adds
    the same text and the same lines after them; this holds also when the
    loop raises. *)
Theorem loop_only_appends
    (cwd start_path : string)
    (triples : list (string * list string * list (string * file_state)))
    (s : io) :
  bundle_loop cwd start_path triples s =
  (fst (bundle_loop cwd start_path triples io0),
   mkIO (outfile s ++ outfile (snd (bundle_loop cwd start_path triples io0)))
        (stdout s ++ stdout (snd (bundle_loop cwd start_path triples io0)))%list).
Proof. apply appends_bundle_loop. Qed.

(** *** No failure of a file leaves the loop *)

Lemma join_nonempty (a b : string) : a <> "" -> posixpath.join a b <> "".
Proof.
  intros Ha. unfold posixpath.join.
  destruct (startswith "/" b) eqn:Eb.
  - intros E. rewrite E in Eb. discriminate.
  - destruct ((a =? "") || endswith "/" a); intros E;
      apply StrFacts.app_eq_nil in E as [? _]; contradiction.
Qed.

Lemma relpath_returns (cwd path start : string) :
  path <> "" -> exists rel, posixpath.relpath cwd path start = Ok rel.
Proof.
  intros Hp. unfold posixpath.relpath.
  rewrite (PathFacts.eqb_empty_false path Hp).
  destruct (_ ++ _)%list; eauto.
Qed.

Lemma diagnostic_printed (filepath e : string) (s : io) :
  utf8.valid filepath = true -> utf8.valid e = true ->
  fst (print ("Could not read file " ++ filepath ++ ": " ++ e) s) = Ok tt.
Proof.
  intros Hf He. rewrite print_valid; [reflexivity|].
  now apply Utf8Facts.valid_diagnostic.
Qed.

Lemma bundle_one_returns (cwd start_path dirpath : string)
    (file : string * file_state) (s : io) :
  dirpath <> "" ->
  utf8.valid (posixpath.join dirpath (fst file)) = true ->
  cause_encodable (snd file) = true ->
  fst (bundle_one cwd start_path dirpath file s) = Ok tt.
Proof.
  intros Hd Hpath Hcause. destruct file as [filename st].
  cbn [fst snd] in Hpath, Hcause. unfold bundle_one.
  destruct (relpath_returns cwd (posixpath.join dirpath filename) start_path
              (join_nonempty dirpath filename Hd)) as [rel Hrel].
  unfold bind at 1. unfold lift. rewrite Hrel.
  assert (Herr : utf8.valid utf8.encode_error = true) by reflexivity.
  unfold try_except, bind, write.
  destruct st as [cause|cause|content]; cbn [open_r read raise ret].
  - now apply diagnostic_printed.
  - destruct (utf8.valid (header rel)); now apply diagnostic_printed.
  - destruct (utf8.valid (header rel)); [|now apply diagnostic_printed].
    cbn [outfile stdout].
    destruct (utf8.valid content); [|now apply diagnostic_printed].
    cbn [outfile stdout].
    destruct (utf8.valid separator); [reflexivity|].
    now apply diagnostic_printed.
Qed.

Lemma for_each_returns {A} (xs : list A) (body : A -> M unit) :
  Forall (fun x => forall s, fst (body x s) = Ok tt) xs ->
  forall s, fst (for_each xs body s) = Ok tt.
Proof.
  induction 1 as [|x xs Hx _ IH]; intros s; [reflexivity|].
  cbn [for_each]. unfold bind.
  specialize (Hx s). destruct (body x s) as [[[]|e] s']; [apply IH|].
  discriminate.
Qed.

Lemma filenames_encodable (top : string) (es : list (string * node)) :
  utf8.valid top = true ->
  all_names_entries utf8.valid es = true ->
  all_files_entries cause_encodable es = true ->
  Forall (fun f => utf8.valid (posixpath.join top (fst f)) = true
                   /\ cause_encodable (snd f) = true) (filenames es).
Proof.
  intros Htop.
  induction es as [|[name [st|b es']] es IH]; cbn; intros Hn Hf.
  - constructor.
  - apply andb_true_iff in Hn as [Hn Hes].
    apply andb_true_iff in Hn as [Hname _].
    apply andb_true_iff in Hf as [Hst Hfs].
    constructor; [|now apply IH]. cbn [fst snd].
    split; [now apply Utf8Facts.valid_posix_join | exact Hst].
  - apply andb_true_iff in Hn as [_ Hes].
    apply andb_true_iff in Hf as [_ Hfs]. now apply IH.
Qed.

Lemma walk_encodable (n : node) :
  forall top,
    top <> "" -> utf8.valid top = true ->
    all_names utf8.valid n = true ->
    all_files cause_encodable n = true ->
    Forall (fun t =>
              fst (fst t) <> "" /\
              Forall (fun f =>
                        utf8.valid (posixpath.join (fst (fst t)) (fst f))
                        = true
                        /\ cause_encodable (snd f) = true) (snd t))
      (walk top n).
Proof.
  induction n as [st|b es IH] using node_induction;
    intros top Htop Hvalid Hnames Hfiles.
  - constructor.
  - destruct b; [|constructor].
    rewrite all_names_dir in Hnames. rewrite all_files_dir in Hfiles.
    rewrite walk_dir. constructor.
    + cbn [fst snd]. split; [exact Htop|].
      now apply filenames_encodable.
    + revert Hnames Hfiles.
      induction IH as [|[name child] es Hchild _ IHes];
        intros Hnames Hfiles; [constructor|].
      cbn [all_names_entries all_files_entries] in Hnames, Hfiles.
      apply andb_true_iff in Hnames as [Hn Hes].
      apply andb_true_iff in Hn as [Hname Hc].
      apply andb_true_iff in Hfiles as [Hcf Hfs].
      destruct child as [st|b' es']; cbn [walk_entries]; [now apply IHes|].
      apply Forall_app. split; [|now apply IHes].
      apply Hchild; auto.
      * now apply join_nonempty.
      * now apply Utf8Facts.valid_posix_join.
Qed.

(** X10.  No failure of a file leaves the loop.  With a start path that is
    not empty, whatever the names of the tree are, as long as the start
    path, the names and the causes are valid UTF-8 (so that the diagnostic
    lines can be printed), the two nested loops return normally from every
    state: the exceptions of [open], of [read] and of the writes are
    caught, and [relpath] is never given an empty path. *)
Theorem loop_catches_file_failures
    (cwd start_path : string) (n : node) (s : io) :
  start_path <> "" ->
  utf8.valid start_path = true ->
  all_names utf8.valid n = true ->
  all_files cause_encodable n = true ->
  fst (bundle_loop cwd start_path (walk start_path n) s) = Ok tt.
Proof.
  intros Hstart Hvalid Hnames Hfiles.
  unfold bundle_loop. apply for_each_returns.
  eapply Forall_impl;
    [|exact (walk_encodable n start_path Hstart Hvalid Hnames Hfiles)].
  intros [[dirpath dirs] files] [Hd Hfs] s'. cbn [fst snd] in Hd, Hfs.
  apply for_each_returns.
  eapply Forall_impl; [|exact Hfs].
  intros file [Hpath Hcause] s''. now apply bundle_one_returns.
Qed.

(** *** Instances *)

Lemma traversal_order_witness :
  fst (run mixed_tree) = Ok tt
  /\ fs_output (snd (run mixed_tree))
     = Some (render (flat_map item_of (visited_files mixed_tree)))
  /\ Permutation (visited_files mixed_tree) (reachable_files mixed_tree).
Proof.
  apply (bundle_is_records_in_traversal_order home eq_refl "src"
           ltac:(discriminate) "Code_Bundle.txt" (world_of mixed_tree)
           mixed_tree); first [reflexivity | repeat constructor].
Defined.

Lemma main_reports_witness :
  fst (main home (world_of bad_tree)) = Ok tt
  /\ console (snd (main home (world_of bad_tree)))
     = (console (world_of bad_tree)
        ++ flat_map (diagnostic_of "src") (visited_files bad_tree)
        ++ ["All files from 'src' have been bundled into 'Code_Bundle.txt'"])%list
  /\ fs_output (snd (main home (world_of bad_tree)))
     = fs_output (snd (bundle_files home "src" "Code_Bundle.txt"
                         (world_of bad_tree))).
Proof.
  apply (main_reports_skips_then_success home (world_of bad_tree) bad_tree);
    first [reflexivity | repeat constructor].
Defined.

Lemma independent_of_start_witness :
  fs_output (snd (bundle_files home "src" "Code_Bundle.txt"
                    (world_of mixed_tree)))
  = fs_output (snd (bundle_files "/" "/srv/project/src/" "Code_Bundle.txt"
                      (mkWorld (Some mixed_tree) (Some "old") ["x"]))).
Proof.
  apply (bundle_bytes_independent_of_start_and_cwd home "/" "src"
           "/srv/project/src/" "Code_Bundle.txt"
           (world_of mixed_tree)
           (mkWorld (Some mixed_tree) (Some "old") ["x"]) mixed_tree);
    first [reflexivity | discriminate | repeat constructor].
Defined.

Lemma relative_path_witness :
  posixpath.relpath home (posixpath.join_all "src" ["sub"; "b.txt"]) "src"
    = Ok (pystr.join "/" ["sub"; "b.txt"])
  /\ posixpath.join "src" (pystr.join "/" ["sub"; "b.txt"])
     = posixpath.join_all "src" ["sub"; "b.txt"].
Proof.
  apply (relative_path_locates_file home eq_refl "src" ltac:(discriminate)
           hello_tree ["sub"; "b.txt"] (Text ("world" ++ nl))).
  - reflexivity.
  - simpl. auto.
Defined.

Lemma whole_records_witness :
  fs_output (snd (run mixed_tree))
  = Some (render (map whole_record (text_pairs (visited_files mixed_tree)))).
Proof.
  apply (bundle_is_whole_records home eq_refl "src" ltac:(discriminate)
           "Code_Bundle.txt" (world_of mixed_tree) mixed_tree).
  - reflexivity.
  - reflexivity.
  - repeat constructor.
  - repeat constructor.
Defined.

Lemma determined_by_bytes_witness :
  [("a.txt", "hello"); ("sub/b.txt", "world")]
  = [("a.txt", "hello"); ("sub/b.txt", "world")].
Proof.
  apply (whole_records_determined_by_bytes
           [("a.txt", "hello"); ("sub/b.txt", "world")]
           [("a.txt", "hello"); ("sub/b.txt", "world")]).
  - repeat constructor; intros c E; injection E as <-; reflexivity.
  - repeat constructor; intros c E; injection E as <-; reflexivity.
  - reflexivity.
Defined.

Lemma no_files_witness :
  bundle_files home "src" "Code_Bundle.txt"
    (mkWorld (Some hollow_tree) (Some "old bundle") [])
  = (Ok tt, mkWorld (Some hollow_tree) (Some "") [])
  /\ (is_dir hollow_tree = true ->
      main home (mkWorld (Some hollow_tree) (Some "old bundle") []) =
      (Ok tt,
       mkWorld (Some hollow_tree) (Some "")
         ["All files from 'src' have been bundled into 'Code_Bundle.txt'"])).
Proof.
  apply (no_files_empty_bundle home "src" "Code_Bundle.txt"
           (mkWorld (Some hollow_tree) (Some "old bundle") []) hollow_tree);
    reflexivity.
Defined.

Lemma no_trace_witness :
  fs_output (snd (bundle_files home "src" "Code_Bundle.txt"
                    (mkWorld (Some mixed_tree) None [])))
  = fs_output (snd (bundle_files home "src" "Code_Bundle.txt"
                      (mkWorld (Some (drop_unopenable mixed_tree)) None []))).
Proof.
  apply (unopenable_files_leave_no_trace home "src" "Code_Bundle.txt"
           mixed_tree None []);
    first [reflexivity | discriminate | repeat constructor].
Defined.

Lemma loop_catches_witness :
  fst (bundle_loop home "src" (walk "src" odd_tree) (mkIO "" [])) = Ok tt.
Proof.
  apply (loop_catches_file_failures home "src" odd_tree (mkIO "" []));
    first [reflexivity | discriminate].
Defined.

End CoverageLoop.
